(** * Shared-memory audio ring buffer (Driver/SharedMemory.hpp) and the
      consumer side of the driver (Driver/Driver.cpp)

    The C++ sources are embedded as functions on explicit state:

    - fixed-width unsigned integers are [Z] with the wrap-around of every
      arithmetic operation written out ([wrap64], [wrap32]);
    - a [float] is its IEEE-754 binary32 bit pattern; the code only copies
      floats and stores [0.0f], so no floating-point arithmetic is involved;
    - arrays are lists indexed with stdpp's lookup and insert; an access
      outside an array is undefined behaviour in C++ and is an explicit
      [OutOfRange] result here;
    - methods of [SharedAudioBuffer] run in a small state-and-error monad
      over the object and the caller's [samples] array.

    The atomics are modelled by their values: one call runs at a time, the
    memory orders are not represented. *)

From Stdlib Require Import ZArith List Lia Bool.
From stdpp Require Import base list gmap.
From Stdlib Require String.
Import String.StringSyntax.
Delimit Scope string_scope with string.
Open Scope Z_scope.

(** * SharedMemory.hpp *)

(** ** Machine integers *)

Definition wrap64 (z : Z) : Z := z mod 2 ^ 64.
Definition wrap32 (z : Z) : Z := z mod 2 ^ 32.

(** ** Shared memory configuration *)

Definition kRingBufferFrames : Z := 4096.
Definition kChannels : Z := 2.
Definition kSampleRate : Z := 48000.

(** A float, as the 32 bits stored in memory. *)
Definition float32 := Z.
(** [0.0f]: all bits clear. *)
Definition zero_f : float32 := 0.
(** [n] floats of silence. *)
Definition zeros (n : nat) : list float32 := replicate n zero_f.

(** ** Results of memory accesses *)

Inductive array_name := AudioData | Samples.

(** Undefined behaviour, made explicit: an access outside an array, or a
    dereference of a pointer that addresses no object. *)
Inductive fault :=
| OutOfRange (arr : array_name) (i : Z)
| BadPointer.

Inductive result (A : Type) : Type :=
| Ok (a : A)
| Fault (f : fault).
Arguments Ok {A} a.
Arguments Fault {A} f.

Definition rbind {A B} (r : result A) (k : A -> result B) : result B :=
  match r with
  | Ok a => k a
  | Fault f => Fault f
  end.

(** [arr[i]] as an rvalue. *)
Definition load (name : array_name) (arr : list float32) (i : Z) : result float32 :=
  if (0 <=? i) && (i <? Z.of_nat (length arr)) then
    match arr !! Z.to_nat i with
    | Some v => Ok v
    | None => Fault (OutOfRange name i)
    end
  else Fault (OutOfRange name i).

(** [arr[i] = v]. *)
Definition store (name : array_name) (arr : list float32) (i : Z) (v : float32)
  : result (list float32) :=
  if (0 <=? i) && (i <? Z.of_nat (length arr)) then Ok (<[Z.to_nat i := v]> arr)
  else Fault (OutOfRange name i).

(** ** The structure in shared memory *)

Record SharedAudioBuffer := mkSharedAudioBuffer {
  writeIndex : Z;            (* std::atomic<uint64_t> *)
  readIndex : Z;             (* std::atomic<uint64_t> *)
  isActive : bool;           (* std::atomic<bool> *)
  sampleRate : Z;            (* uint32_t *)
  channels : Z;              (* uint32_t *)
  bufferFrames : Z;          (* uint32_t *)
  padding : list Z;          (* uint8_t[32] *)
  audioData : list float32   (* float[kRingBufferFrames * kChannels] *)
}.

(** The object as its default member initialisers leave it; [pad] and [data]
    are whatever the fresh segment holds. *)
Definition create (pad : list Z) (data : list float32) : SharedAudioBuffer :=
  {| writeIndex := 0; readIndex := 0; isActive := false;
     sampleRate := kSampleRate; channels := kChannels;
     bufferFrames := kRingBufferFrames;
     padding := pad; audioData := data |}.

Definition set_writeIndex (v : Z) (b : SharedAudioBuffer) : SharedAudioBuffer :=
  {| writeIndex := v; readIndex := readIndex b; isActive := isActive b;
     sampleRate := sampleRate b; channels := channels b;
     bufferFrames := bufferFrames b; padding := padding b;
     audioData := audioData b |}.

Definition set_readIndex (v : Z) (b : SharedAudioBuffer) : SharedAudioBuffer :=
  {| writeIndex := writeIndex b; readIndex := v; isActive := isActive b;
     sampleRate := sampleRate b; channels := channels b;
     bufferFrames := bufferFrames b; padding := padding b;
     audioData := audioData b |}.

Definition set_audioData (d : list float32) (b : SharedAudioBuffer) : SharedAudioBuffer :=
  {| writeIndex := writeIndex b; readIndex := readIndex b; isActive := isActive b;
     sampleRate := sampleRate b; channels := channels b;
     bufferFrames := bufferFrames b; padding := padding b;
     audioData := d |}.

(** Modelled from the spec: the producer, which is not among the sources,
    sets [isActive] before its first write and clears it when it stops. *)
Definition set_isActive (v : bool) (b : SharedAudioBuffer) : SharedAudioBuffer :=
  {| writeIndex := writeIndex b; readIndex := readIndex b; isActive := v;
     sampleRate := sampleRate b; channels := channels b;
     bufferFrames := bufferFrames b; padding := padding b;
     audioData := audioData b |}.

(** ** The method monad

    What a method of [SharedAudioBuffer] can touch: the object itself and the
    array its [samples] argument points to. *)

Record Mem := mkMem {
  this : SharedAudioBuffer;
  samples : list float32
}.

Definition method (A : Type) : Type := Mem -> result (A * Mem).

Definition ret {A} (a : A) : method A := fun m => Ok (a, m).

Definition bind {A B} (c : method A) (k : A -> method B) : method B :=
  fun m => rbind (c m) (fun am => k (fst am) (snd am)).

Notation "x <- c ;; k" := (bind c (fun x => k))
  (at level 100, c at next level, right associativity).
Notation "c ;;; k" := (bind c (fun _ => k))
  (at level 100, right associativity).

Definition get_field {A} (f : SharedAudioBuffer -> A) : method A :=
  fun m => Ok (f (this m), m).

Definition put_writeIndex (v : Z) : method unit :=
  fun m => Ok (tt, mkMem (set_writeIndex v (this m)) (samples m)).

Definition put_readIndex (v : Z) : method unit :=
  fun m => Ok (tt, mkMem (set_readIndex v (this m)) (samples m)).

(** [samples[i]] *)
Definition load_samples (i : Z) : method float32 :=
  fun m => rbind (load Samples (samples m) i) (fun v => Ok (v, m)).

(** [samples[i] = v] *)
Definition store_samples (i : Z) (v : float32) : method unit :=
  fun m => rbind (store Samples (samples m) i v)
             (fun a => Ok (tt, mkMem (this m) a)).

(** [audioData[i]] *)
Definition load_audioData (i : Z) : method float32 :=
  fun m => rbind (load AudioData (audioData (this m)) i) (fun v => Ok (v, m)).

(** [audioData[i] = v] *)
Definition store_audioData (i : Z) (v : float32) : method unit :=
  fun m => rbind (store AudioData (audioData (this m)) i v)
             (fun a => Ok (tt, mkMem (set_audioData a (this m)) (samples m))).

(** [for (i = start; i < start + n; i++) body(i)], for a bound the body does
    not change. *)
Fixpoint for_loop (n : nat) (i : Z) (body : Z -> method unit) : method unit :=
  match n with
  | O => ret tt
  | S n' => body i ;;; for_loop n' (i + 1) body
  end.

(** ** SharedAudioBuffer's methods *)

(** Get available frames to read. *)
Definition availableToRead : method Z :=
  write <- get_field writeIndex ;;
  read <- get_field readIndex ;;
  ret (wrap64 (write - read)).

(** Get available space to write. *)
Definition availableToWrite : method Z :=
  write <- get_field writeIndex ;;
  read <- get_field readIndex ;;
  ret (wrap64 (kRingBufferFrames - wrap64 (write - read))).

(** The slot of [audioData] for frame [pos + i], channel [ch]:
    [((pos + i) % kRingBufferFrames) * channels + ch] in [uint64_t]. *)
Definition audioIndex (nch pos i ch : Z) : Z :=
  let index := wrap64 (pos + i) mod kRingBufferFrames in
  wrap64 (wrap64 (index * nch) + ch).

(** The slot of [samples] for frame [i], channel [ch]: [i * channels + ch]. *)
Definition sampleIndex (nch i ch : Z) : Z := wrap64 (wrap64 (i * nch) + ch).

(** Write audio frames (producer - app side). *)
Definition write (frameCount : Z) : method bool :=
  avail <- availableToWrite ;;
  if avail <? frameCount then ret false   (* Buffer full *)
  else
    writePos <- get_field writeIndex ;;
    nch <- get_field channels ;;
    for_loop (Z.to_nat frameCount) 0 (fun i =>
      for_loop (Z.to_nat nch) 0 (fun ch =>
        v <- load_samples (sampleIndex nch i ch) ;;
        store_audioData (audioIndex nch writePos i ch) v)) ;;;
    put_writeIndex (wrap64 (writePos + frameCount)) ;;;
    ret true.

(** Read audio frames (consumer - driver side). *)
Definition read (frameCount : Z) : method bool :=
  avail <- availableToRead ;;
  if avail <? frameCount then
    (* Not enough data, fill with silence *)
    nch <- get_field channels ;;
    for_loop (Z.to_nat (wrap64 (frameCount * nch))) 0 (fun i =>
      store_samples i zero_f) ;;;
    ret false
  else
    readPos <- get_field readIndex ;;
    nch <- get_field channels ;;
    for_loop (Z.to_nat frameCount) 0 (fun i =>
      for_loop (Z.to_nat nch) 0 (fun ch =>
        v <- load_audioData (audioIndex nch readPos i ch) ;;
        store_samples (sampleIndex nch i ch) v)) ;;;
    put_readIndex (wrap64 (readPos + frameCount)) ;;;
    ret true.

(** * Driver.cpp: the connection to the segment and the I/O handler *)

(** Stream format - matches what the app produces. *)
Definition SampleRate : Z := 48000.
Definition ChannelCount : Z := 2.

(** A [SharedAudioBuffer*]: null, [MAP_FAILED], or the address of a live
    mapping of the segment. *)
Inductive pointer := nullptr | MAP_FAILED | mapped.

Record SharedMemoryReader := mkReader {
  fd_ : Z;            (* int *)
  buffer_ : pointer   (* SharedAudioBuffer* *)
}.

(** What the operating system answers to the next [shm_open] and [mmap]. *)
Record os_answers := mkAnswers {
  shm_open_answer : Z;      (* -1, or the new descriptor *)
  mmap_answer : pointer     (* MAP_FAILED, or the mapping *)
}.

(** The handler's reader together with the descriptors its process holds
    open. *)
Record Host := mkHost {
  shmReader_ : SharedMemoryReader;
  descriptors : gset Z
}.

Definition shm_open (os : os_answers) (fds : gset Z) : Z * gset Z :=
  let fd := shm_open_answer os in
  (fd, if fd =? -1 then fds else {[fd]} ∪ fds).

Definition mmap (os : os_answers) : pointer := mmap_answer os.

Definition close (fd : Z) (fds : gset Z) : gset Z := fds ∖ {[fd]}.

(** [SharedMemoryReader::SharedMemoryReader()] *)
Definition SharedMemoryReader_new (os : os_answers) (fds : gset Z) : Host :=
  let '(fd, fds1) := shm_open os fds in
  if fd =? -1 then mkHost (mkReader fd nullptr) fds1
  else
    match mmap os with
    | MAP_FAILED => mkHost (mkReader (-1) nullptr) (close fd fds1)
    | b => mkHost (mkReader fd b) fds1
    end.

(** [SharedMemoryReader::buffer()] *)
Definition buffer (h : Host) : pointer := buffer_ (shmReader_ h).

(** [SharedMemoryReader::tryReconnect()] *)
Definition tryReconnect (os : os_answers) (h : Host) : bool * Host :=
  match buffer_ (shmReader_ h) with
  | nullptr =>
      let '(fd, fds1) := shm_open os (descriptors h) in
      if fd =? -1 then (false, mkHost (mkReader fd (buffer_ (shmReader_ h))) fds1)
      else
        match mmap os with
        | MAP_FAILED => (false, mkHost (mkReader (-1) nullptr) (close fd fds1))
        | b => (true, mkHost (mkReader fd b) fds1)
        end
  | _ => (true, h)
  end.

(** The low [n] bytes of a little-endian 32-bit word cleared. *)
Definition clear_low_bytes (n : Z) (x : float32) : float32 :=
  Z.shiftl (Z.shiftr x (8 * n)) (8 * n).

(** [std::memset(samples, 0, bytesCount)] on an array of floats. *)
Definition memset_zero (dst : list float32) (bytesCount : Z) : result (list float32) :=
  let whole := Z.to_nat (bytesCount / 4) in
  let part := bytesCount mod 4 in
  if 4 * Z.of_nat (length dst) <? bytesCount then
    Fault (OutOfRange Samples (Z.of_nat (length dst)))
  else
    Ok (zeros whole ++
        match drop whole dst with
        | x :: rest => (if part =? 0 then x else clear_low_bytes part x) :: rest
        | [] => []
        end).

(** [MicNoiseGateIOHandler::OnReadClientInput]; [shm] is the content of the
    segment, which [read] updates in place. *)
Definition OnReadClientInput (os : os_answers) (shm : SharedAudioBuffer) (h : Host)
    (bytes : list float32) (bytesCount : Z)
  : result (Host * SharedAudioBuffer * list float32) :=
  let numSamples := wrap32 (bytesCount / 4 / ChannelCount) in
  (* Try to reconnect to shared memory if not connected *)
  let h1 := match buffer h with
            | nullptr => snd (tryReconnect os h)
            | _ => h
            end in
  match buffer h1 with
  | nullptr =>
      (* No shared memory - output silence *)
      rbind (memset_zero bytes bytesCount) (fun out => Ok (h1, shm, out))
  | MAP_FAILED => Fault BadPointer
  | mapped =>
      if isActive shm then
        rbind (read numSamples (mkMem shm bytes)) (fun r =>
          if fst r then Ok (h1, this (snd r), samples (snd r))
          else
            (* Buffer underrun - output silence *)
            rbind (memset_zero (samples (snd r)) bytesCount) (fun out =>
              Ok (h1, this (snd r), out)))
      else
        (* Producer not active - output silence *)
        rbind (memset_zero bytes bytesCount) (fun out => Ok (h1, shm, out))
  end.

(** * Vocabulary of the statements *)

(** The values the two queries return, as functions of the object. *)
Definition readable (b : SharedAudioBuffer) : Z :=
  wrap64 (writeIndex b - readIndex b).
Definition writable (b : SharedAudioBuffer) : Z :=
  wrap64 (kRingBufferFrames - wrap64 (writeIndex b - readIndex b)).

(** Position in [audioData] of channel [ch] of frame number [k]. *)
Definition slot_pos (k ch : Z) : nat := Z.to_nat (2 * (k mod kRingBufferFrames) + ch).

(** ** Well-formed objects and the counter invariant *)

(** The metadata is as at creation and the sample array has its declared
    length. *)
Definition well_formed (b : SharedAudioBuffer) : Prop :=
  channels b = kChannels /\ length (audioData b) = Z.to_nat (kRingBufferFrames * kChannels).

(** ** Sequences of calls *)

(** A call on the object, with the array its [samples] argument points to. *)
Inductive op :=
| Write (smp : list float32) (frameCount : Z)
| Read (dst : list float32) (frameCount : Z).

(** What the caller observes: the returned flag and, for [read], the
    destination after the call. *)
Inductive event :=
| Wrote (ok : bool)
| ReadBack (ok : bool) (out : list float32).

Definition exec_op (o : op) (b : SharedAudioBuffer) : result (event * SharedAudioBuffer) :=
  match o with
  | Write smp fc =>
      rbind (write fc (mkMem b smp)) (fun r => Ok (Wrote (fst r), this (snd r)))
  | Read dst fc =>
      rbind (read fc (mkMem b dst))
        (fun r => Ok (ReadBack (fst r) (samples (snd r)), this (snd r)))
  end.

Fixpoint run (ops : list op) (b : SharedAudioBuffer)
  : result (list event * SharedAudioBuffer) :=
  match ops with
  | [] => Ok ([], b)
  | o :: ops' =>
      rbind (exec_op o b) (fun r =>
        rbind (run ops' (snd r)) (fun r' => Ok (fst r :: fst r', snd r')))
  end.

(** The frame count is a [uint64_t] and the array holds that many stereo
    frames within the address space. *)
Definition op_ok (o : op) : bool :=
  match o with
  | Write smp fc | Read smp fc =>
      (0 <=? fc) && (fc <? 2 ^ 64) &&
      (2 * fc <=? Z.of_nat (length smp)) && (Z.of_nat (length smp) <? 2 ^ 64)
  end.

(** *** The queue the specification describes

    A first-in first-out queue of interleaved stereo frames of capacity
    [kRingBufferFrames]: a write that does not fit is dropped whole, a read
    that is not covered yields silence and consumes nothing. *)

Definition queue_frames (q : list float32) : Z := Z.of_nat (length q) / 2.

Definition fifo_op (o : op) (q : list float32) : event * list float32 :=
  match o with
  | Write smp fc =>
      if kRingBufferFrames - queue_frames q <? fc then (Wrote false, q)
      else (Wrote true, q ++ take (Z.to_nat (2 * fc)) smp)
  | Read dst fc =>
      if queue_frames q <? fc then
        (ReadBack false (zeros (Z.to_nat (2 * fc)) ++ drop (Z.to_nat (2 * fc)) dst), q)
      else
        (ReadBack true (take (Z.to_nat (2 * fc)) q ++ drop (Z.to_nat (2 * fc)) dst),
         drop (Z.to_nat (2 * fc)) q)
  end.

Fixpoint fifo_run (ops : list op) (q : list float32) : list event * list float32 :=
  match ops with
  | [] => ([], q)
  | o :: ops' =>
      let r := fifo_op o q in
      let r' := fifo_run ops' (snd r) in
      (fst r :: fst r', snd r')
  end.

(** The unread frames of [b], oldest first, are the queue [q]. *)
Definition represents (b : SharedAudioBuffer) (q : list float32) : Prop :=
  Z.of_nat (length q) = 2 * readable b /\
  forall k ch, 0 <= k < readable b -> 0 <= ch < 2 ->
    audioData b !! slot_pos (readIndex b + k) ch = q !! Z.to_nat (2 * k + ch).

(** The counters are at most a buffer length apart, modulo [2 ^ 64]. *)
Definition counters_ok (b : SharedAudioBuffer) : Prop :=
  readable b <= kRingBufferFrames.

(** The code and the queue agree on each call. *)
Definition good (b : SharedAudioBuffer) (q : list float32) : Prop :=
  well_formed b /\ counters_ok b /\ represents b q.

(** ** What the calls leave alone *)

(** All fields but [audioData] agree. *)
Definition same_header (b b0 : SharedAudioBuffer) : Prop :=
  writeIndex b = writeIndex b0 /\ readIndex b = readIndex b0 /\
  isActive b = isActive b0 /\ sampleRate b = sampleRate b0 /\
  channels b = channels b0 /\ bufferFrames b = bufferFrames b0 /\
  padding b = padding b0.

(** ** The counters along a run *)

(** The frame count is a [uint64_t]. *)
Definition op_typed (o : op) : bool :=
  match o with
  | Write _ fc | Read _ fc => (0 <=? fc) && (fc <? 2 ^ 64)
  end.

(** Frames a call added to the buffer. *)
Definition accepted (o : op) (ev : event) : Z :=
  match o, ev with
  | Write _ fc, Wrote true => fc
  | _, _ => 0
  end.

(** Frames written over a whole run. *)
Fixpoint frames_accepted (ops : list op) (evs : list event) : Z :=
  match ops, evs with
  | o :: ops', ev :: evs' => accepted o ev + frames_accepted ops' evs'
  | _, _ => 0
  end.

(** [W] frames written and [R] frames read so far, as unbounded integers. *)
Definition tracks (b : SharedAudioBuffer) (W R : Z) : Prop :=
  writeIndex b = wrap64 W /\ readIndex b = wrap64 R /\
  0 <= R <= W /\ W <= R + kRingBufferFrames.

(** ** A run long enough for [writeIndex] to wrap *)

Definition one_frame : list float32 := [zero_f; zero_f].

(** Write one frame, read it back. *)
Definition one_round : list op := [Write one_frame 1; Read one_frame 1].

Fixpoint rounds (n : nat) : list op :=
  match n with
  | O => []
  | S n' => one_round ++ rounds n'
  end.

(** [2 ^ 64 - 1] rounds, then one more frame written. *)
Definition wrap_run : list op := rounds (Z.to_nat (2 ^ 64 - 1)) ++ [Write one_frame 1].

Definition silent : SharedAudioBuffer := create [] (zeros (Z.to_nat 8192)).

(** The empty buffer after [k] frames went through it. *)
Definition at_count (k : Z) : SharedAudioBuffer :=
  set_readIndex (wrap64 k) (set_writeIndex (wrap64 k) silent).

(** ** Accesses to [audioData] stay inside the array *)

(** The call did not leave [audioData]. *)
Definition audio_safe {A} (r : result A) : Prop :=
  match r with
  | Fault (OutOfRange AudioData _) => False
  | _ => True
  end.

Definition array_declared (m : Mem) : Prop :=
  length (audioData (this m)) = Z.to_nat (kRingBufferFrames * kChannels).

(** ** The operating system and the connection

    The answers a real system can give: [mmap] never returns null, and a new
    descriptor is not one already open. *)
Definition os_sane (os : os_answers) (fds : gset Z) : Prop :=
  mmap_answer os <> nullptr /\
  (shm_open_answer os = -1 \/ shm_open_answer os ∉ fds).

(** Whether open-and-map succeeds with these answers. *)
Definition attempt_succeeds (os : os_answers) : bool :=
  negb (shm_open_answer os =? -1) &&
  match mmap_answer os with MAP_FAILED => false | _ => true end.

(** One [tryReconnect] per answer. *)
Fixpoint reconnect_attempts (answers : list os_answers) (h : Host) : Host :=
  match answers with
  | [] => h
  | os :: rest => reconnect_attempts rest (snd (tryReconnect os h))
  end.

Definition Disconnected (h : Host) : Prop := shmReader_ h = mkReader (-1) nullptr.

(** The handler after its reconnection attempt. *)
Definition after_reconnect (os : os_answers) (h : Host) : Host :=
  match buffer h with
  | nullptr => snd (tryReconnect os h)
  | _ => h
  end.

(** ** Test data *)

(** [n] floats with distinct bit patterns from [first] on. *)
Definition ramp (first : Z) (n : nat) : list float32 :=
  map (fun i => first + Z.of_nat i) (seq 0 n).

(** 3000 frames through the buffer, then 2000 more, which cross the end of
    the array. *)
Definition wrap_scenario : list op :=
  [ Write (ramp 1 (Z.to_nat 6000)) 3000; Read (zeros (Z.to_nat 6000)) 3000;
    Write (ramp 7001 (Z.to_nat 4000)) 2000; Read (zeros (Z.to_nat 4000)) 2000 ].

(** The scenario of the specification: three frames in, two out, then a read
    of two with one left. *)
Definition short_scenario : list op :=
  [ Write [1; 1; 2; 2; 3; 3] 3; Read [9; 9; 9; 9] 2; Read [9; 9; 9; 9] 2 ].

(** A handler that holds a mapping, on descriptor 5. *)
Definition connected_host : Host := mkHost (mkReader 5 mapped) {[5]}.

(** Open fails; open succeeds and map fails; both succeed. *)
Definition no_segment : os_answers := mkAnswers (-1) MAP_FAILED.
Definition no_mapping : os_answers := mkAnswers 7 MAP_FAILED.
Definition segment_ready : os_answers := mkAnswers 7 mapped.

(** * Driver.cpp: the rest of the reader, the driver and its entry point *)

(** [SharedMemoryReader::~SharedMemoryReader()]: whether [munmap] is called,
    and the descriptor table once the destructor has run. *)
Definition SharedMemoryReader_delete (h : Host) : bool * gset Z :=
  let unmap := match buffer_ (shmReader_ h) with
               | mapped => true       (* buffer_ && buffer_ != MAP_FAILED *)
               | _ => false
               end in
  (unmap,
   if fd_ (shmReader_ h) =? -1 then descriptors h
   else close (fd_ (shmReader_ h)) (descriptors h)).

(** One call of the I/O handler by the host: the answers the operating
    system would give, the destination and its size in bytes. *)
Record invocation := mkInvocation {
  call_os : os_answers;
  call_bytes : list float32;
  call_bytesCount : Z
}.

(** The handler called once per buffer period; the destinations are
    collected as the host gets them back. *)
Fixpoint callbacks (calls : list invocation) (shm : SharedAudioBuffer) (h : Host)
  : result (Host * SharedAudioBuffer * list (list float32)) :=
  match calls with
  | [] => Ok (h, shm, [])
  | c :: rest =>
      rbind (OnReadClientInput (call_os c) shm h (call_bytes c) (call_bytesCount c))
        (fun r =>
           rbind (callbacks rest (snd (fst r)) (fst (fst r))) (fun r' =>
             Ok (fst (fst r'), snd (fst r'), snd r :: snd r')))
  end.

Module aspl.
(** The fields of [aspl::DeviceParameters] the driver sets. *)
Record DeviceParameters := mkDeviceParameters {
  Name : String.string;
  Manufacturer : String.string;
  DeviceUID : String.string;
  ModelUID : String.string;
  SampleRate : Z;
  ChannelCount : Z;
  EnableMixing : bool;
  CanBeDefault : bool;
  CanBeDefaultForSystemSounds : bool
}.

Inductive Direction := Input | Output.
End aspl.

(** What [CreateDriver] assembles: the device, its one stream and the I/O
    handler, whose reader is constructed on the spot. *)
Record Driver := mkDriver {
  deviceParams : aspl.DeviceParameters;
  stream : aspl.Direction;
  ioHandler : Host
}.

(** [CreateDriver()] *)
Definition CreateDriver (os : os_answers) (fds : gset Z) : Driver :=
  {| deviceParams :=
       {| aspl.Name := "MicNoiseGate Mic"%string;
          aspl.Manufacturer := "MicNoiseGate"%string;
          aspl.DeviceUID := "MicNoiseGate_VirtualMic"%string;
          aspl.ModelUID := "MicNoiseGate_Model"%string;
          aspl.SampleRate := SampleRate;
          aspl.ChannelCount := ChannelCount;
          aspl.EnableMixing := false;
          aspl.CanBeDefault := true;
          aspl.CanBeDefaultForSystemSounds := false |};
     stream := aspl.Input;
     ioHandler := SharedMemoryReader_new os fds |}.

Section EntryPoint.
(** [kAudioServerPlugInTypeUUID], a constant of CoreAudio; a UUID is its
    128 bits. *)
Variable kAudioServerPlugInTypeUUID : Z.

(** [MicNoiseGateDriverEntryPoint]: [static] is the function's static
    [driver], empty until its declaration is first reached; the result is
    the reference handed to CoreAudio and the static afterwards. *)
Definition MicNoiseGateDriverEntryPoint (os : os_answers) (fds : gset Z)
    (typeUUID : Z) (static : option Driver) : option Driver * option Driver :=
  (* Verify this is an AudioServerPlugIn request *)
  if negb (typeUUID =? kAudioServerPlugInTypeUUID) then (None, static)
  else
    (* Create and keep driver alive *)
    let driver := match static with
                  | Some d => d
                  | None => CreateDriver os fds
                  end in
    (Some driver, Some driver).

(** CoreAudio calling the entry point again and again, each call with its
    type UUID and with what the operating system would answer then. *)
Fixpoint entry_calls (fds : gset Z) (calls : list (os_answers * Z))
    (static : option Driver) : list (option Driver) * option Driver :=
  match calls with
  | [] => ([], static)
  | c :: rest =>
      let r := MicNoiseGateDriverEntryPoint (fst c) fds (snd c) static in
      let r' := entry_calls fds rest (snd r) in
      (fst r :: fst r', snd r')
  end.
End EntryPoint.

(** ** Vocabulary of the further properties *)

(** A reader over the table [fds0] of the other descriptors of the process:
    disconnected with nothing of its own open, or holding a mapping and the
    one descriptor it opened. *)
Definition reader_invariant (fds0 : gset Z) (h : Host) : Prop :=
  (Disconnected h /\ descriptors h = fds0) \/
  (buffer h = mapped /\ fd_ (shmReader_ h) <> -1 /\ (fd_ (shmReader_ h) ∉ fds0) /\
   descriptors h = {[fd_ (shmReader_ h)]} ∪ fds0).

(** A buffer like [b] but for its [channels] field and its counters. *)
Definition with_channels (nch pos : Z) (b : SharedAudioBuffer) : SharedAudioBuffer :=
  {| writeIndex := pos; readIndex := pos; isActive := isActive b;
     sampleRate := sampleRate b; channels := nch;
     bufferFrames := bufferFrames b; padding := padding b;
     audioData := audioData b |}.

(** A segment holding three frames of an active producer. *)
Definition three_frames : SharedAudioBuffer :=
  set_isActive true
    (set_writeIndex 3 (set_audioData ([1; 1; 2; 2; 3; 3] ++ zeros (Z.to_nat 8186)) silent)).

(** * Lemmas *)

(** ** Arithmetic of the slot computation *)

Lemma wrap64_range z : 0 <= wrap64 z < 2 ^ 64.
Proof. unfold wrap64. apply Z.mod_pos_bound. lia. Qed.

Lemma wrap64_small z : 0 <= z < 2 ^ 64 -> wrap64 z = z.
Proof. unfold wrap64. intros. apply Z.mod_small. lia. Qed.

Lemma wrap64_add_l a b : wrap64 (wrap64 a + b) = wrap64 (a + b).
Proof. unfold wrap64. apply Zplus_mod_idemp_l. Qed.

Lemma wrap64_slot z : wrap64 z mod kRingBufferFrames = z mod kRingBufferFrames.
Proof.
  unfold wrap64, kRingBufferFrames.
  change (2 ^ 64) with 18446744073709551616.
  Z.div_mod_to_equations. lia.
Qed.

Lemma slot_range z : 0 <= z mod kRingBufferFrames < kRingBufferFrames.
Proof. apply Z.mod_pos_bound. reflexivity. Qed.

(** Two frame numbers less than a buffer length apart use different slots. *)
Lemma slot_distinct a b :
  0 < b - a < kRingBufferFrames ->
  a mod kRingBufferFrames <> b mod kRingBufferFrames.
Proof.
  unfold kRingBufferFrames. intros H E.
  pose proof (Z.div_mod a 4096 ltac:(lia)).
  pose proof (Z.div_mod b 4096 ltac:(lia)).
  lia.
Qed.

Lemma slot_congr a b :
  wrap64 a = wrap64 b -> a mod kRingBufferFrames = b mod kRingBufferFrames.
Proof. intros E. rewrite <- (wrap64_slot a), <- (wrap64_slot b). now rewrite E. Qed.

Lemma audioIndex_stereo pos i ch :
  0 <= ch < 2 ->
  audioIndex 2 pos i ch = 2 * ((pos + i) mod kRingBufferFrames) + ch.
Proof.
  intros Hch. unfold audioIndex. rewrite wrap64_slot.
  pose proof (slot_range (pos + i)). unfold kRingBufferFrames in *.
  rewrite !wrap64_small; rewrite ?wrap64_small; lia.
Qed.

Lemma sampleIndex_stereo i ch :
  0 <= ch < 2 -> 0 <= i -> 2 * i + ch < 2 ^ 64 ->
  sampleIndex 2 i ch = 2 * i + ch.
Proof.
  intros. unfold sampleIndex. rewrite !wrap64_small; rewrite ?wrap64_small; lia.
Qed.

(** ** Running the monad *)

Lemma availableToRead_eq m : availableToRead m = Ok (readable (this m), m).
Proof. reflexivity. Qed.

Lemma availableToWrite_eq m : availableToWrite m = Ok (writable (this m), m).
Proof. reflexivity. Qed.

(** Run the load of a field that starts the computation. *)
Ltac step_field := unfold bind at 1, get_field at 1; cbn [rbind fst snd this].

Lemma bind_ok {A B} (c : method A) (k : A -> method B) m a m' :
  c m = Ok (a, m') -> bind c k m = k a m'.
Proof. intros E. unfold bind. now rewrite E. Qed.

Lemma in_range_true i (n : nat) :
  0 <= i < Z.of_nat n -> (0 <=? i) && (i <? Z.of_nat n) = true.
Proof. intros. apply andb_true_iff. split; [apply Z.leb_le | apply Z.ltb_lt]; lia. Qed.

Lemma load_ok name (arr : list float32) i v :
  0 <= i -> arr !! Z.to_nat i = Some v -> load name arr i = Ok v.
Proof.
  intros Hi Hv. unfold load. rewrite Hv.
  apply lookup_lt_Some in Hv. rewrite in_range_true by lia. reflexivity.
Qed.

Lemma store_ok name (arr : list float32) i v :
  0 <= i < Z.of_nat (length arr) ->
  store name arr i v = Ok (<[Z.to_nat i := v]> arr).
Proof. intros. unfold store. now rewrite in_range_true. Qed.

(** ** The copy loops *)

(** Loop rule: an invariant that every iteration re-establishes holds at the
    exit, and the loop does exit normally. *)
Lemma for_loop_inv (I : Z -> Mem -> Prop) body n : forall i m,
  I i m ->
  (forall j mj, i <= j < i + Z.of_nat n -> I j mj ->
     exists mj', body j mj = Ok (tt, mj') /\ I (j + 1) mj') ->
  exists m', for_loop n i body m = Ok (tt, m') /\ I (i + Z.of_nat n) m'.
Proof.
  induction n as [|n IH]; intros i m Hi Hstep.
  - exists m. split; [reflexivity|]. now replace (i + Z.of_nat 0) with i by lia.
  - destruct (Hstep i m ltac:(lia) Hi) as (m1 & E1 & H1).
    destruct (IH (i + 1) m1 H1) as (m' & E' & H').
    { intros j mj Hj. apply Hstep. lia. }
    exists m'. split.
    + cbn [for_loop]. rewrite (bind_ok _ _ _ _ _ E1). exact E'.
    + now replace (i + Z.of_nat (S n)) with (i + 1 + Z.of_nat n) by lia.
Qed.

Lemma slot_pos_lt k ch : 0 <= ch < 2 -> (slot_pos k ch < Z.to_nat 8192)%nat.
Proof.
  intros. unfold slot_pos. pose proof (slot_range k). unfold kRingBufferFrames in *. lia.
Qed.

Lemma slot_pos_ne k1 ch1 k2 ch2 :
  0 <= ch1 < 2 -> 0 <= ch2 < 2 -> 0 < k2 - k1 < kRingBufferFrames ->
  slot_pos k1 ch1 <> slot_pos k2 ch2.
Proof.
  intros H1 H2 Hk. unfold slot_pos.
  pose proof (slot_distinct k1 k2 Hk).
  pose proof (slot_range k1). pose proof (slot_range k2).
  unfold kRingBufferFrames in *. lia.
Qed.

(** One frame of the copy loop of [write], two channels. *)
Lemma write_frame_ok w i m v0 v1 :
  0 <= i -> 2 * i + 1 < 2 ^ 64 ->
  samples m !! Z.to_nat (2 * i) = Some v0 ->
  samples m !! Z.to_nat (2 * i + 1) = Some v1 ->
  length (audioData (this m)) = Z.to_nat 8192 ->
  for_loop (Z.to_nat 2) 0 (fun ch =>
      v <- load_samples (sampleIndex 2 i ch) ;;
      store_audioData (audioIndex 2 w i ch) v) m
  = Ok (tt, mkMem
         (set_audioData
            (<[slot_pos (w + i) 1 := v1]>
               (<[slot_pos (w + i) 0 := v0]> (audioData (this m))))
            (this m))
         (samples m)).
Proof.
  intros Hi Hb H0 H1 Hlen.
  pose proof (slot_range (w + i)) as Hs. unfold kRingBufferFrames in Hs.
  change (Z.to_nat 2) with 2%nat. cbn [for_loop].
  unfold bind at 1. unfold bind at 1. unfold load_samples at 1.
  rewrite sampleIndex_stereo, audioIndex_stereo by lia.
  rewrite (Z.add_0_r (2 * i)).
  assert (0 <= 2 * i) as Hn0 by lia. assert (0 <= 2 * i + 1) as Hn1 by lia.
  rewrite (load_ok _ _ _ _ Hn0 H0). cbn [rbind fst snd].
  unfold store_audioData at 1. rewrite store_ok by (rewrite Hlen; unfold kRingBufferFrames; lia).
  cbn [rbind fst snd this samples].
  unfold bind at 1. unfold bind at 1. unfold load_samples at 1.
  change (0 + 1) with 1.
  rewrite sampleIndex_stereo, audioIndex_stereo by lia.
  cbn [this samples].
  rewrite (load_ok _ _ _ _ Hn1 H1). cbn [rbind fst snd].
  unfold store_audioData at 1. cbn [this samples set_audioData audioData].
  rewrite store_ok by (rewrite length_insert, Hlen; unfold kRingBufferFrames; lia).
  reflexivity.
Qed.

(** The copy loop of [write]: it ends normally, stores frame [k] of [samples]
    in the slot of frame number [w + k], and touches nothing else. *)
Lemma write_loop_ok b smp w fc :
  well_formed b -> 0 <= fc <= kRingBufferFrames ->
  2 * fc <= Z.of_nat (length smp) ->
  exists d,
    for_loop (Z.to_nat fc) 0 (fun i =>
      for_loop (Z.to_nat 2) 0 (fun ch =>
        v <- load_samples (sampleIndex 2 i ch) ;;
        store_audioData (audioIndex 2 w i ch) v)) (mkMem b smp)
    = Ok (tt, mkMem (set_audioData d b) smp) /\
    length d = length (audioData b) /\
    (forall k ch, 0 <= k < fc -> 0 <= ch < 2 ->
       d !! slot_pos (w + k) ch = smp !! Z.to_nat (2 * k + ch)) /\
    (forall p, (forall k ch, 0 <= k < fc -> 0 <= ch < 2 -> p <> slot_pos (w + k) ch) ->
       d !! p = audioData b !! p).
Proof.
  intros [Hch Hlen] Hfc Hsmp. unfold kRingBufferFrames, kChannels in *.
  pose (I := fun (j : Z) (mj : Mem) =>
    samples mj = smp /\ exists d, this mj = set_audioData d b /\
      length d = length (audioData b) /\
      (forall k ch, 0 <= k < j -> 0 <= ch < 2 ->
         d !! slot_pos (w + k) ch = smp !! Z.to_nat (2 * k + ch)) /\
      (forall p, (forall k ch, 0 <= k < j -> 0 <= ch < 2 -> p <> slot_pos (w + k) ch) ->
         d !! p = audioData b !! p)).
  destruct (for_loop_inv I
    (fun i => for_loop (Z.to_nat 2) 0 (fun ch =>
        v <- load_samples (sampleIndex 2 i ch) ;;
        store_audioData (audioIndex 2 w i ch) v))
    (Z.to_nat fc) 0 (mkMem b smp)) as (m' & E & Hs' & d & Hthis & Hl & Hw & Hu).
  - split; [reflexivity|]. exists (audioData b). repeat split.
    + now destruct b.
    + intros; lia.
  - intros j mj Hj (Hsj & d & Hthis & Hl & Hw & Hu).
    destruct (lookup_lt_is_Some_2 smp (Z.to_nat (2 * j))) as [v0 H0]; [lia|].
    destruct (lookup_lt_is_Some_2 smp (Z.to_nat (2 * j + 1))) as [v1 H1]; [lia|].
    eexists. split.
    + apply (write_frame_ok w j mj v0 v1); rewrite ?Hsj, ?Hthis; try assumption; try lia.
      cbn [audioData set_audioData]. rewrite Hl, Hlen. reflexivity.
    + split; [exact Hsj|]. cbn [this samples].
      rewrite Hthis. cbn [audioData set_audioData].
      assert (slot_pos (w + j) 0 <> slot_pos (w + j) 1) as Hne01.
      { unfold slot_pos. pose proof (slot_range (w + j)). unfold kRingBufferFrames in *. lia. }
      pose proof (slot_pos_lt (w + j) 0 ltac:(lia)) as Hlt0.
      pose proof (slot_pos_lt (w + j) 1 ltac:(lia)) as Hlt1.
      change (Z.to_nat (4096 * 2)) with (Z.to_nat 8192) in Hlen.
      eexists. split; [reflexivity|]. split; [now rewrite !length_insert|]. split.
      * intros k ch Hk Hc. destruct (Z.eq_dec k j) as [->|Hkj].
        -- assert (ch = 0 \/ ch = 1) as [-> | ->] by lia.
           ++ rewrite list_lookup_insert_ne by congruence.
              rewrite list_lookup_insert_eq by lia.
              now rewrite Z.add_0_r.
           ++ rewrite list_lookup_insert_eq by (rewrite length_insert; lia).
              now symmetry.
        -- rewrite !list_lookup_insert_ne.
           ++ apply Hw; lia.
           ++ apply not_eq_sym, slot_pos_ne; unfold kRingBufferFrames; lia.
           ++ apply not_eq_sym, slot_pos_ne; unfold kRingBufferFrames; lia.
      * intros p Hp. rewrite !list_lookup_insert_ne.
        -- apply Hu. intros k ch Hk Hc. apply Hp; lia.
        -- apply not_eq_sym, Hp; lia.
        -- apply not_eq_sym, Hp; lia.
  - exists d. destruct m' as [b' s']. cbn [this samples] in *. subst.
    replace (0 + Z.of_nat (Z.to_nat fc)) with fc in * by lia.
    repeat split; assumption.
Qed.

(** A write that fits: the call returns [true], the frames are in their
    slots, the rest of the array is as before, [writeIndex] has advanced. *)
Lemma write_ok b smp fc :
  well_formed b -> 0 <= fc <= kRingBufferFrames -> fc <= writable b ->
  2 * fc <= Z.of_nat (length smp) ->
  exists d,
    write fc (mkMem b smp)
    = Ok (true, mkMem (set_writeIndex (wrap64 (writeIndex b + fc)) (set_audioData d b)) smp) /\
    length d = length (audioData b) /\
    (forall k ch, 0 <= k < fc -> 0 <= ch < 2 ->
       d !! slot_pos (writeIndex b + k) ch = smp !! Z.to_nat (2 * k + ch)) /\
    (forall p, (forall k ch, 0 <= k < fc -> 0 <= ch < 2 ->
                  p <> slot_pos (writeIndex b + k) ch) ->
       d !! p = audioData b !! p).
Proof.
  intros Hwf Hfc Hav Hsmp.
  destruct (write_loop_ok b smp (writeIndex b) fc Hwf Hfc Hsmp) as (d & E & Hd).
  exists d. split; [|exact Hd].
  unfold write. rewrite (bind_ok _ _ _ _ _ (availableToWrite_eq _)). cbn [this].
  destruct (Z.ltb_spec (writable b) fc) as [?|_]; [lia|].
  step_field.
  step_field.
  destruct Hwf as [-> _]. unfold kChannels.
  rewrite (bind_ok _ _ _ _ _ E). reflexivity.
Qed.

(** One frame of the copy loop of [read], two channels. *)
Lemma read_frame_ok r i m v0 v1 :
  0 <= i -> 2 * i + 1 < 2 ^ 64 ->
  2 * i + 1 < Z.of_nat (length (samples m)) ->
  audioData (this m) !! slot_pos (r + i) 0 = Some v0 ->
  audioData (this m) !! slot_pos (r + i) 1 = Some v1 ->
  for_loop (Z.to_nat 2) 0 (fun ch =>
      v <- load_audioData (audioIndex 2 r i ch) ;;
      store_samples (sampleIndex 2 i ch) v) m
  = Ok (tt, mkMem (this m)
              (<[Z.to_nat (2 * i + 1) := v1]>
                 (<[Z.to_nat (2 * i + 0) := v0]> (samples m)))).
Proof.
  intros Hi Hb Hlen H0 H1.
  pose proof (slot_range (r + i)) as Hs. unfold kRingBufferFrames in Hs.
  assert (0 <= 2 * ((r + i) mod kRingBufferFrames) + 0) as Hn0
    by (unfold kRingBufferFrames; lia).
  assert (0 <= 2 * ((r + i) mod kRingBufferFrames) + 1) as Hn1
    by (unfold kRingBufferFrames; lia).
  change (Z.to_nat 2) with 2%nat. cbn [for_loop].
  unfold bind at 1. unfold bind at 1. unfold load_audioData at 1.
  rewrite sampleIndex_stereo, audioIndex_stereo by lia.
  rewrite (load_ok _ _ _ _ Hn0 H0). cbn [rbind fst snd].
  unfold store_samples at 1. rewrite store_ok by lia.
  cbn [rbind fst snd this samples].
  unfold bind at 1. unfold bind at 1. unfold load_audioData at 1.
  change (0 + 1) with 1.
  rewrite sampleIndex_stereo, audioIndex_stereo by lia.
  cbn [this samples].
  rewrite (load_ok _ _ _ _ Hn1 H1). cbn [rbind fst snd].
  unfold store_samples at 1. cbn [this samples].
  rewrite store_ok by (rewrite length_insert; lia).
  reflexivity.
Qed.

(** The copy loop of [read]: it ends normally, frame [k] of the destination is
    the content of the slot of frame number [r + k], the object and the rest
    of the destination are untouched. *)
Lemma read_loop_ok b dst r fc :
  well_formed b -> 0 <= fc -> 2 * fc <= 2 ^ 64 ->
  2 * fc <= Z.of_nat (length dst) ->
  exists out,
    for_loop (Z.to_nat fc) 0 (fun i =>
      for_loop (Z.to_nat 2) 0 (fun ch =>
        v <- load_audioData (audioIndex 2 r i ch) ;;
        store_samples (sampleIndex 2 i ch) v)) (mkMem b dst)
    = Ok (tt, mkMem b out) /\
    length out = length dst /\
    (forall k ch, 0 <= k < fc -> 0 <= ch < 2 ->
       out !! Z.to_nat (2 * k + ch) = audioData b !! slot_pos (r + k) ch) /\
    (forall p, 2 * fc <= Z.of_nat p -> out !! p = dst !! p).
Proof.
  intros [Hch Hlen] Hfc Hbig Hdst. unfold kRingBufferFrames, kChannels in *.
  change (Z.to_nat (4096 * 2)) with (Z.to_nat 8192) in Hlen.
  pose (I := fun (j : Z) (mj : Mem) =>
    this mj = b /\ length (samples mj) = length dst /\
    (forall k ch, 0 <= k < j -> 0 <= ch < 2 ->
       samples mj !! Z.to_nat (2 * k + ch) = audioData b !! slot_pos (r + k) ch) /\
    (forall p, 2 * j <= Z.of_nat p -> samples mj !! p = dst !! p)).
  destruct (for_loop_inv I
    (fun i => for_loop (Z.to_nat 2) 0 (fun ch =>
        v <- load_audioData (audioIndex 2 r i ch) ;;
        store_samples (sampleIndex 2 i ch) v))
    (Z.to_nat fc) 0 (mkMem b dst)) as (m' & E & Hthis & Hl & Hr & Hu).
  - repeat split. intros; lia.
  - intros j mj Hj (Hthis & Hl & Hr & Hu).
    destruct (lookup_lt_is_Some_2 (audioData b) (slot_pos (r + j) 0)) as [v0 H0].
    { rewrite Hlen. apply slot_pos_lt; lia. }
    destruct (lookup_lt_is_Some_2 (audioData b) (slot_pos (r + j) 1)) as [v1 H1].
    { rewrite Hlen. apply slot_pos_lt; lia. }
    eexists. split.
    + apply (read_frame_ok r j mj v0 v1); rewrite ?Hthis; try assumption; lia.
    + split; [exact Hthis|]. cbn [this samples].
      split; [now rewrite !length_insert|]. split.
      * intros k ch Hk Hc. destruct (Z.eq_dec k j) as [->|Hkj].
        -- assert (ch = 0 \/ ch = 1) as [-> | ->] by lia.
           ++ rewrite list_lookup_insert_ne by lia.
              rewrite list_lookup_insert_eq by lia. now symmetry.
           ++ rewrite list_lookup_insert_eq by (rewrite length_insert; lia).
              now symmetry.
        -- rewrite !list_lookup_insert_ne by lia. apply Hr; lia.
      * intros p Hp. rewrite !list_lookup_insert_ne by lia. apply Hu. lia.
  - destruct m' as [b' out]. cbn [this samples] in *. subst b'.
    replace (0 + Z.of_nat (Z.to_nat fc)) with fc in * by lia.
    exists out. repeat split; assumption.
Qed.

(** A read that is covered: the call returns [true], the destination holds
    the frames numbered from [readIndex], [readIndex] has advanced. *)
Lemma read_ok b dst fc :
  well_formed b -> 0 <= fc <= readable b ->
  2 * fc <= Z.of_nat (length dst) -> 2 * fc <= 2 ^ 64 ->
  exists out,
    read fc (mkMem b dst)
    = Ok (true, mkMem (set_readIndex (wrap64 (readIndex b + fc)) b) out) /\
    length out = length dst /\
    (forall k ch, 0 <= k < fc -> 0 <= ch < 2 ->
       out !! Z.to_nat (2 * k + ch) = audioData b !! slot_pos (readIndex b + k) ch) /\
    (forall p, 2 * fc <= Z.of_nat p -> out !! p = dst !! p).
Proof.
  intros Hwf Hfc Hdst Hbig.
  destruct (read_loop_ok b dst (readIndex b) fc Hwf) as (out & E & Ho); [lia..|].
  exists out. split; [|exact Ho].
  unfold read. rewrite (bind_ok _ _ _ _ _ (availableToRead_eq _)). cbn [this].
  destruct (Z.ltb_spec (readable b) fc) as [?|_]; [lia|].
  step_field.
  step_field.
  destruct Hwf as [-> _]. unfold kChannels.
  rewrite (bind_ok _ _ _ _ _ E). reflexivity.
Qed.

(** The silence loop of [read]: [n] zeros from the start of the destination. *)
Lemma zero_fill_from b n : forall pre dst,
  (n <= length dst)%nat ->
  for_loop n (Z.of_nat (length pre)) (fun i => store_samples i zero_f)
    (mkMem b (pre ++ dst))
  = Ok (tt, mkMem b (pre ++ zeros n ++ drop n dst)).
Proof.
  induction n as [|n IH]; intros pre dst Hn.
  - reflexivity.
  - destruct dst as [|x dst]; [cbn in Hn; lia|]. cbn [length] in Hn.
    cbn [for_loop]. unfold bind at 1, store_samples at 1. cbn [this samples].
    rewrite store_ok by (rewrite length_app; cbn [length]; lia).
    rewrite Nat2Z.id, insert_app_r_alt, Nat.sub_diag by lia.
    cbn [rbind fst snd this samples].
    change (<[0%nat:=zero_f]> (x :: dst)) with (zero_f :: dst).
    specialize (IH (pre ++ [zero_f]) dst ltac:(lia)).
    rewrite length_app in IH. cbn [length] in IH.
    replace (Z.of_nat (length pre + 1)) with (Z.of_nat (length pre) + 1) in IH by lia.
    rewrite <- !app_assoc in IH. exact IH.
Qed.

Lemma zero_fill_ok b n dst :
  (n <= length dst)%nat ->
  for_loop n 0 (fun i => store_samples i zero_f) (mkMem b dst)
  = Ok (tt, mkMem b (zeros n ++ drop n dst)).
Proof. intros H. exact (zero_fill_from b n [] dst H). Qed.

(** A read that is not covered: silence over [frameCount * channels] floats,
    [false], and the object as it was. *)
Lemma read_underrun b dst fc :
  readable b < fc -> 0 <= channels b ->
  fc * channels b <= Z.of_nat (length dst) -> fc * channels b < 2 ^ 64 ->
  read fc (mkMem b dst)
  = Ok (false, mkMem b (zeros (Z.to_nat (fc * channels b))
                          ++ drop (Z.to_nat (fc * channels b)) dst)).
Proof.
  intros Hu Hch Hdst Hbig.
  assert (0 <= fc) by (pose proof (wrap64_range (writeIndex b - readIndex b)); unfold readable in Hu; lia).
  unfold read. rewrite (bind_ok _ _ _ _ _ (availableToRead_eq _)). cbn [this].
  destruct (Z.ltb_spec (readable b) fc) as [_|?]; [|lia].
  step_field.
  rewrite wrap64_small by nia.
  assert (Z.to_nat (fc * channels b) <= length dst)%nat as Hn by lia.
  rewrite (bind_ok _ _ _ _ _ (zero_fill_ok b _ dst Hn)).
  reflexivity.
Qed.

(** A write that does not fit returns [false] at once. *)
Lemma write_full m fc :
  writable (this m) < fc -> write fc m = Ok (false, m).
Proof.
  intros H. unfold write. rewrite (bind_ok _ _ _ _ _ (availableToWrite_eq _)).
  destruct (Z.ltb_spec (writable (this m)) fc) as [_|?]; [reflexivity|lia].
Qed.

(** ** The buffer as a queue *)

Lemma readable_range b : 0 <= readable b < 2 ^ 64.
Proof. apply wrap64_range. Qed.

Lemma writable_counters_ok b :
  counters_ok b -> writable b = kRingBufferFrames - readable b.
Proof.
  unfold counters_ok, writable. fold (readable b). intros H.
  pose proof (readable_range b). unfold kRingBufferFrames in *.
  apply wrap64_small. lia.
Qed.

Lemma readable_after_write b d fc :
  counters_ok b -> 0 <= fc <= writable b ->
  readable (set_writeIndex (wrap64 (writeIndex b + fc)) (set_audioData d b))
  = readable b + fc.
Proof.
  intros Hc Hfc. rewrite (writable_counters_ok b Hc) in Hfc.
  pose proof (readable_range b) as Hr.
  unfold counters_ok, readable, wrap64, kRingBufferFrames in *. cbn [writeIndex readIndex set_writeIndex set_audioData].
  rewrite Zminus_mod_idemp_l.
  replace (writeIndex b + fc - readIndex b) with ((writeIndex b - readIndex b) + fc) by lia.
  rewrite <- Zplus_mod_idemp_l. apply Z.mod_small. lia.
Qed.

Lemma readable_after_read b fc :
  0 <= fc <= readable b ->
  readable (set_readIndex (wrap64 (readIndex b + fc)) b) = readable b - fc.
Proof.
  intros Hfc. pose proof (readable_range b) as Hr.
  unfold readable, wrap64 in *. cbn [writeIndex readIndex set_readIndex].
  rewrite Zminus_mod_idemp_r.
  replace (writeIndex b - (readIndex b + fc)) with ((writeIndex b - readIndex b) - fc) by lia.
  rewrite <- Zminus_mod_idemp_l. apply Z.mod_small. lia.
Qed.

(** The first free slot is the slot of [writeIndex]. *)
Lemma slot_pos_free b k ch :
  slot_pos (readIndex b + readable b + k) ch = slot_pos (writeIndex b + k) ch.
Proof.
  unfold slot_pos, readable, wrap64, kRingBufferFrames. f_equal. f_equal. f_equal.
  change (2 ^ 64) with 18446744073709551616.
  Z.div_mod_to_equations. lia.
Qed.

Lemma slot_pos_wrap a k ch : slot_pos (wrap64 a + k) ch = slot_pos (a + k) ch.
Proof.
  unfold slot_pos, wrap64, kRingBufferFrames. f_equal. f_equal. f_equal.
  change (2 ^ 64) with 18446744073709551616.
  Z.div_mod_to_equations. lia.
Qed.

Lemma represents_create pad data : represents (create pad data) [].
Proof.
  assert (readable (create pad data) = 0) as E by reflexivity.
  split; [reflexivity|]. intros k ch Hk. rewrite E in Hk. lia.
Qed.

Lemma queue_frames_represents b q : represents b q -> queue_frames q = readable b.
Proof.
  intros [Hl _]. unfold queue_frames. rewrite Hl.
  rewrite Z.mul_comm. apply Z.div_mul. lia.
Qed.

Lemma well_formed_set_audioData b d v :
  well_formed b -> length d = length (audioData b) ->
  well_formed (set_writeIndex v (set_audioData d b)).
Proof. intros [H1 H2] Hd. split; cbn; [exact H1 | now rewrite Hd]. Qed.

Lemma well_formed_set_readIndex b v : well_formed b -> well_formed (set_readIndex v b).
Proof. intros [H1 H2]. split; assumption. Qed.

(** An accepted write appends its frames to the queue. *)
Lemma represents_write b q d smp fc :
  counters_ok b -> represents b q ->
  0 <= fc <= writable b -> 2 * fc <= Z.of_nat (length smp) ->
  length d = length (audioData b) ->
  (forall k ch, 0 <= k < fc -> 0 <= ch < 2 ->
     d !! slot_pos (writeIndex b + k) ch = smp !! Z.to_nat (2 * k + ch)) ->
  (forall p, (forall k ch, 0 <= k < fc -> 0 <= ch < 2 ->
                p <> slot_pos (writeIndex b + k) ch) ->
     d !! p = audioData b !! p) ->
  represents (set_writeIndex (wrap64 (writeIndex b + fc)) (set_audioData d b))
    (q ++ take (Z.to_nat (2 * fc)) smp).
Proof.
  intros Hc [Hlq Hq] Hfc Hsmp Hld Hw Hu.
  pose proof (readable_after_write b d fc Hc Hfc) as Hr'.
  pose proof (readable_range b) as Hrr.
  rewrite (writable_counters_ok b Hc) in Hfc. unfold kRingBufferFrames in Hfc.
  split.
  - rewrite Hr', length_app, length_take. lia.
  - rewrite Hr'. cbn [audioData readIndex set_writeIndex set_audioData].
    intros k ch Hk Hch.
    destruct (Z.lt_ge_cases k (readable b)) as [Hlt|Hge].
    + rewrite lookup_app_l by lia. rewrite <- Hq by lia.
      apply Hu. intros k' ch' Hk' Hch'. rewrite <- slot_pos_free.
      apply slot_pos_ne; unfold kRingBufferFrames; lia.
    + rewrite lookup_app_r by lia.
      rewrite lookup_take_lt by lia.
      replace (readIndex b + k) with (readIndex b + readable b + (k - readable b)) by lia.
      rewrite slot_pos_free, Hw by lia. f_equal. lia.
Qed.

(** A covered read returns the head of the queue and removes it. *)
Lemma represents_read b q fc :
  represents b q -> 0 <= fc <= readable b ->
  represents (set_readIndex (wrap64 (readIndex b + fc)) b) (drop (Z.to_nat (2 * fc)) q).
Proof.
  intros [Hlq Hq] Hfc. pose proof (readable_after_read b fc Hfc) as Hr'.
  split.
  - rewrite Hr', length_drop. lia.
  - rewrite Hr'. cbn [audioData readIndex set_readIndex].
    intros k ch Hk Hch. rewrite slot_pos_wrap, lookup_drop.
    replace (readIndex b + fc + k) with (readIndex b + (fc + k)) by lia.
    rewrite Hq by lia. f_equal. lia.
Qed.

Lemma read_output b q dst out fc :
  represents b q -> 0 <= fc <= readable b ->
  length out = length dst ->
  (forall k ch, 0 <= k < fc -> 0 <= ch < 2 ->
     out !! Z.to_nat (2 * k + ch) = audioData b !! slot_pos (readIndex b + k) ch) ->
  (forall p, 2 * fc <= Z.of_nat p -> out !! p = dst !! p) ->
  out = take (Z.to_nat (2 * fc)) q ++ drop (Z.to_nat (2 * fc)) dst.
Proof.
  intros [Hlq Hq] Hfc Hlo Hr Hu. apply list_eq. intros i.
  destruct (Nat.lt_ge_cases i (Z.to_nat (2 * fc))) as [Hlt|Hge].
  - rewrite lookup_app_l by (rewrite length_take; lia).
    rewrite lookup_take_lt by lia.
    pose (k := Z.of_nat i / 2). pose (ch := Z.of_nat i mod 2).
    assert (Z.of_nat i = 2 * k + ch /\ 0 <= ch < 2) as [Hi Hch].
    { subst k ch. pose proof (Z.div_mod (Z.of_nat i) 2 ltac:(lia)).
      pose proof (Z.mod_pos_bound (Z.of_nat i) 2 ltac:(lia)). lia. }
    replace i with (Z.to_nat (2 * k + ch)) by lia.
    rewrite Hr by lia. apply Hq; lia.
  - rewrite lookup_app_r by (rewrite length_take; lia).
    rewrite length_take, lookup_drop, Hu by lia. f_equal. lia.
Qed.

Lemma op_ok_spec (smp : list float32) fc :
  (0 <=? fc) && (fc <? 2 ^ 64) &&
  (2 * fc <=? Z.of_nat (length smp)) && (Z.of_nat (length smp) <? 2 ^ 64) = true ->
  0 <= fc < 2 ^ 64 /\ 2 * fc <= Z.of_nat (length smp) < 2 ^ 64.
Proof.
  rewrite !andb_true_iff, !Z.leb_le, !Z.ltb_lt. lia.
Qed.

Lemma step_refines o b q :
  good b q -> op_ok o = true ->
  exists b', exec_op o b = Ok (fst (fifo_op o q), b') /\ good b' (snd (fifo_op o q)).
Proof.
  intros (Hwf & Hc & Hrep) Hok.
  pose proof (queue_frames_represents b q Hrep) as Hqf.
  pose proof (writable_counters_ok b Hc) as Hwr.
  pose proof (readable_range b) as Hrr.
  destruct o as [smp fc | dst fc]; apply op_ok_spec in Hok as [Hfc Hlen];
    cbn [exec_op fifo_op]; rewrite Hqf.
  - destruct (Z.ltb_spec (kRingBufferFrames - readable b) fc) as [Hfull|Hfits].
    + rewrite write_full by (cbn [this]; lia). cbn. eexists. split; [reflexivity|].
      repeat split; try apply Hwf; try apply Hrep; assumption.
    + assert (0 <= fc <= kRingBufferFrames) as Hfc' by (unfold counters_ok in Hc; lia).
      destruct (write_ok b smp fc Hwf Hfc' ltac:(lia) ltac:(lia)) as (d & E & Hld & Hw & Hu).
      rewrite E. cbn. eexists. split; [reflexivity|]. split; [|split].
      * now apply well_formed_set_audioData.
      * unfold counters_ok. rewrite readable_after_write by (assumption || lia). lia.
      * apply represents_write; try assumption; lia.
  - destruct (Z.ltb_spec (readable b) fc) as [Hunder|Hcov].
    + destruct Hwf as [Hch Hl].
      rewrite read_underrun by (rewrite ?Hch; unfold kChannels; lia).
      rewrite Hch. unfold kChannels. rewrite (Z.mul_comm fc 2). cbn.
      eexists. split; [reflexivity|]. repeat split; try apply Hrep; assumption.
    + destruct (read_ok b dst fc Hwf ltac:(lia) ltac:(lia) ltac:(lia)) as (out & E & Hlo & Hr & Hu).
      rewrite E. cbn.
      rewrite (read_output b q dst out fc Hrep ltac:(lia) Hlo Hr Hu).
      eexists. split; [reflexivity|]. split; [|split].
      * now apply well_formed_set_readIndex.
      * unfold counters_ok in *. rewrite readable_after_read by lia. lia.
      * apply represents_read; [assumption | lia].
Qed.

Lemma run_refines ops : forall b q,
  good b q -> forallb op_ok ops = true ->
  exists b', run ops b = Ok (fst (fifo_run ops q), b') /\ good b' (snd (fifo_run ops q)).
Proof.
  induction ops as [|o ops IH]; intros b q Hg Hok.
  - exists b. split; [reflexivity | exact Hg].
  - cbn [forallb] in Hok. apply andb_true_iff in Hok as [Ho Hops].
    destruct (step_refines o b q Hg Ho) as (b1 & E1 & Hg1).
    destruct (IH b1 _ Hg1 Hops) as (b' & E' & Hg').
    exists b'. split; [|exact Hg'].
    cbn [run fifo_run]. rewrite E1. cbn [rbind fst snd]. rewrite E'. reflexivity.
Qed.

Lemma good_create pad data :
  length data = Z.to_nat (kRingBufferFrames * kChannels) -> good (create pad data) [].
Proof.
  intros Hl. split; [|split].
  - split; [reflexivity | exact Hl].
  - unfold counters_ok. now change (readable (create pad data)) with 0.
  - apply represents_create.
Qed.

(** Every state a run reaches from a fresh buffer is well formed and has its
    counters at most a buffer length apart. *)
Lemma run_well_formed ops pad data :
  length data = Z.to_nat (kRingBufferFrames * kChannels) ->
  forallb op_ok ops = true ->
  exists evs b,
    run ops (create pad data) = Ok (evs, b) /\ well_formed b /\ counters_ok b.
Proof.
  intros Hl Hok.
  destruct (run_refines ops (create pad data) [] (good_create pad data Hl) Hok)
    as (b & E & Hwf & Hc & _).
  eauto.
Qed.

(** ** What the calls leave alone *)

Lemma for_loop_preserves (P : Mem -> Prop) body n : forall i m m',
  (forall j mj mj', P mj -> body j mj = Ok (tt, mj') -> P mj') ->
  P m -> for_loop n i body m = Ok (tt, m') -> P m'.
Proof.
  induction n as [|n IH]; intros i m m' Hb Hm E.
  - cbn in E. unfold ret in E. now inversion E; subst.
  - cbn [for_loop] in E. unfold bind at 1 in E.
    destruct (body i m) as [[[] m1]|] eqn:E1; cbn [rbind fst snd] in E; [|discriminate].
    eapply IH; [exact Hb | | exact E]. eapply Hb; eassumption.
Qed.

Lemma load_samples_inv i m v m' : load_samples i m = Ok (v, m') -> m' = m.
Proof.
  unfold load_samples. destruct (load Samples (samples m) i); cbn; [|discriminate].
  now inversion 1.
Qed.

Lemma load_audioData_inv i m v m' : load_audioData i m = Ok (v, m') -> m' = m.
Proof.
  unfold load_audioData. destruct (load AudioData (audioData (this m)) i); cbn; [|discriminate].
  now inversion 1.
Qed.

Lemma store_audioData_inv i v m u m' :
  store_audioData i v m = Ok (u, m') ->
  samples m' = samples m /\ same_header (this m') (this m).
Proof.
  unfold store_audioData. destruct (store AudioData (audioData (this m)) i v); cbn; [|discriminate].
  inversion 1; subst. cbn. repeat split.
Qed.

Lemma store_samples_inv i v m u m' :
  store_samples i v m = Ok (u, m') -> this m' = this m.
Proof.
  unfold store_samples. destruct (store Samples (samples m) i v); cbn; [|discriminate].
  now inversion 1; subst.
Qed.

(** The copy loop of [write], any channel count: only [audioData] changes. *)
Lemma write_loop_frame nch w n m m' :
  for_loop n 0 (fun i =>
    for_loop (Z.to_nat nch) 0 (fun ch =>
      v <- load_samples (sampleIndex nch i ch) ;;
      store_audioData (audioIndex nch w i ch) v)) m = Ok (tt, m') ->
  samples m' = samples m /\ same_header (this m') (this m).
Proof.
  apply (for_loop_preserves
    (fun x => samples x = samples m /\ same_header (this x) (this m))).
  - intros j mj mj' Hj.
    apply (for_loop_preserves
      (fun x => samples x = samples m /\ same_header (this x) (this m))); [|exact Hj].
    intros ch m1 m2 H1 E. unfold bind in E.
    destruct (load_samples (sampleIndex nch j ch) m1) as [[v m1']|] eqn:El;
      cbn [rbind fst snd] in E; [|discriminate].
    apply load_samples_inv in El. subst m1'.
    apply store_audioData_inv in E. destruct E as [Es Eh], H1 as [Hs Hh].
    split; [congruence|]. unfold same_header in *.
    repeat split; (etransitivity; [apply Eh | apply Hh]).
  - unfold same_header. repeat split.
Qed.

(** The copy loop of [read], any channel count: the object is untouched. *)
Lemma read_loop_frame nch r n m m' :
  for_loop n 0 (fun i =>
    for_loop (Z.to_nat nch) 0 (fun ch =>
      v <- load_audioData (audioIndex nch r i ch) ;;
      store_samples (sampleIndex nch i ch) v)) m = Ok (tt, m') ->
  this m' = this m.
Proof.
  apply (for_loop_preserves (fun x => this x = this m)); [|reflexivity].
  intros j mj mj' Hj.
  apply (for_loop_preserves (fun x => this x = this m)); [|exact Hj].
  intros ch m1 m2 H1 E. unfold bind in E.
  destruct (load_audioData (audioIndex nch r j ch) m1) as [[v m1']|] eqn:El;
    cbn [rbind fst snd] in E; [|discriminate].
  apply load_audioData_inv in El. subst m1'.
  apply store_samples_inv in E. congruence.
Qed.

Lemma silence_loop_frame n m m' :
  for_loop n 0 (fun i => store_samples i zero_f) m = Ok (tt, m') -> this m' = this m.
Proof.
  apply (for_loop_preserves (fun x => this x = this m)); [|reflexivity].
  intros j mj mj' Hj E. apply store_samples_inv in E. congruence.
Qed.

(** Every way [write] can return. *)
Lemma write_inv fc m ok m' :
  write fc m = Ok (ok, m') ->
  samples m' = samples m /\
  readIndex (this m') = readIndex (this m) /\
  isActive (this m') = isActive (this m) /\
  sampleRate (this m') = sampleRate (this m) /\
  channels (this m') = channels (this m) /\
  bufferFrames (this m') = bufferFrames (this m) /\
  padding (this m') = padding (this m) /\
  (if ok then fc <= writable (this m) /\
              writeIndex (this m') = wrap64 (writeIndex (this m) + fc)
   else writable (this m) < fc /\ m' = m).
Proof.
  unfold write. rewrite (bind_ok _ _ _ _ _ (availableToWrite_eq _)).
  destruct (Z.ltb_spec (writable (this m)) fc) as [Hfull|Hfits].
  - unfold ret. inversion 1; subst. repeat split; assumption.
  - step_field.
    step_field.
    unfold bind at 1.
    match goal with |- context [rbind ?l _] => destruct l as [[[] m1]|] eqn:El end;
      cbn [rbind fst snd]; [|discriminate].
    apply write_loop_frame in El as [Es Eh].
    unfold bind, put_writeIndex, ret. cbn [rbind fst snd].
    inversion 1; subst. cbn [this samples set_writeIndex writeIndex readIndex isActive
      sampleRate channels bufferFrames padding].
    destruct Eh as (H1 & H2 & H3 & H4 & H5 & H6 & H7).
    repeat split; try assumption.
Qed.

(** Every way [read] can return. *)
Lemma read_inv fc m ok m' :
  read fc m = Ok (ok, m') ->
  writeIndex (this m') = writeIndex (this m) /\
  isActive (this m') = isActive (this m) /\
  sampleRate (this m') = sampleRate (this m) /\
  channels (this m') = channels (this m) /\
  bufferFrames (this m') = bufferFrames (this m) /\
  padding (this m') = padding (this m) /\
  audioData (this m') = audioData (this m) /\
  (if ok then fc <= readable (this m) /\
              readIndex (this m') = wrap64 (readIndex (this m) + fc)
   else readable (this m) < fc /\ this m' = this m).
Proof.
  unfold read. rewrite (bind_ok _ _ _ _ _ (availableToRead_eq _)).
  destruct (Z.ltb_spec (readable (this m)) fc) as [Hunder|Hcov].
  - step_field.
    unfold bind at 1.
    match goal with |- context [rbind ?l _] => destruct l as [[[] m1]|] eqn:El end;
      cbn [rbind fst snd]; [|discriminate].
    apply silence_loop_frame in El. unfold ret. inversion 1; subst.
    rewrite El. repeat split; assumption.
  - step_field.
    step_field.
    unfold bind at 1.
    match goal with |- context [rbind ?l _] => destruct l as [[[] m1]|] eqn:El end;
      cbn [rbind fst snd]; [|discriminate].
    apply read_loop_frame in El.
    unfold bind, put_readIndex, ret. cbn [rbind fst snd].
    inversion 1; subst. cbn [this samples set_readIndex writeIndex readIndex isActive
      sampleRate channels bufferFrames padding audioData].
    rewrite El. repeat split; assumption.
Qed.

(** ** The counters along a run *)

Lemma tracks_readable b W R : tracks b W R -> readable b = W - R.
Proof.
  intros (Hw & Hr & H1 & H2). unfold readable, wrap64, kRingBufferFrames in *.
  rewrite Hw, Hr, <- Zminus_mod. apply Z.mod_small. lia.
Qed.

Lemma tracks_writable b W R : tracks b W R -> writable b = kRingBufferFrames - (W - R).
Proof.
  intros H. pose proof (tracks_readable b W R H) as E.
  destruct H as (Hw & Hr & H1 & H2).
  unfold writable. fold (readable b). rewrite E.
  unfold kRingBufferFrames in *. apply wrap64_small. lia.
Qed.

Lemma op_typed_spec o :
  op_typed o = true ->
  match o with Write _ fc | Read _ fc => 0 <= fc < 2 ^ 64 end.
Proof.
  destruct o; cbn [op_typed]; rewrite andb_true_iff, Z.leb_le, Z.ltb_lt; lia.
Qed.

Lemma exec_op_tracks o b ev b' W R :
  op_typed o = true -> tracks b W R -> exec_op o b = Ok (ev, b') ->
  exists R', tracks b' (W + accepted o ev) R' /\ 0 <= accepted o ev.
Proof.
  intros Ht Htr E. apply op_typed_spec in Ht.
  pose proof (tracks_readable _ _ _ Htr) as Hrd.
  pose proof (tracks_writable _ _ _ Htr) as Hwr.
  destruct Htr as (Hw & Hr & H1 & H2).
  destruct o as [smp fc | dst fc]; cbn [exec_op] in E.
  - destruct (write fc (mkMem b smp)) as [[ok m']|] eqn:Ew; cbn in E; [|discriminate].
    inversion E; subst ev b'. clear E.
    apply write_inv in Ew. cbn [this samples] in Ew.
    destruct Ew as (_ & Er & _ & _ & _ & _ & _ & Hok).
    destruct ok; cbn [accepted].
    + destruct Hok as [Hfit Hw']. exists R. split; [|lia].
      unfold tracks. rewrite Hw', Er, Hw, Hr.
      rewrite wrap64_add_l.
      repeat split; lia.
    + destruct Hok as [_ ->]. cbn [this]. exists R. split; [|lia].
      rewrite Z.add_0_r. repeat split; assumption || lia.
  - destruct (read fc (mkMem b dst)) as [[ok m']|] eqn:Er; cbn in E; [|discriminate].
    inversion E; subst ev b'. clear E.
    apply read_inv in Er. cbn [this samples] in Er.
    destruct Er as (Ew & _ & _ & _ & _ & _ & _ & Hok).
    cbn [accepted]. rewrite Z.add_0_r.
    destruct ok.
    + destruct Hok as [Hcov Hr']. exists (R + fc). split; [|lia].
      unfold tracks. rewrite Hr', Ew, Hw, Hr.
      rewrite wrap64_add_l.
      repeat split; lia.
    + destruct Hok as [_ ->]. exists R. split; [|lia]. repeat split; assumption || lia.
Qed.

Lemma run_tracks ops : forall b evs b' W R,
  forallb op_typed ops = true -> tracks b W R -> run ops b = Ok (evs, b') ->
  exists R', tracks b' (W + frames_accepted ops evs) R' /\ 0 <= frames_accepted ops evs.
Proof.
  induction ops as [|o ops IH]; intros b evs b' W R Ht Htr E.
  - cbn in E. inversion E; subst. cbn. rewrite Z.add_0_r. exists R. split; [assumption|lia].
  - cbn [forallb] in Ht. apply andb_true_iff in Ht as [Ho Hops].
    cbn [run] in E.
    destruct (exec_op o b) as [[ev b1]|] eqn:E1; cbn [rbind fst snd] in E; [|discriminate].
    destruct (run ops b1) as [[evs1 b2]|] eqn:E2; cbn [rbind fst snd] in E; [|discriminate].
    inversion E; subst evs b'. clear E.
    destruct (exec_op_tracks _ _ _ _ _ _ Ho Htr E1) as (R1 & Htr1 & Hn1).
    destruct (IH _ _ _ _ _ Hops Htr1 E2) as (R2 & Htr2 & Hn2).
    cbn [frames_accepted]. exists R2. split; [|lia].
    now rewrite Z.add_assoc.
Qed.

Lemma tracks_create pad data : tracks (create pad data) 0 0.
Proof. unfold tracks, kRingBufferFrames. cbn. repeat split; try reflexivity; lia. Qed.

(** ** The run that wraps [writeIndex] *)

Lemma run_app ops1 : forall ops2 b e1 b1 e2 b2,
  run ops1 b = Ok (e1, b1) -> run ops2 b1 = Ok (e2, b2) ->
  run (ops1 ++ ops2) b = Ok (e1 ++ e2, b2).
Proof.
  induction ops1 as [|o ops1 IH]; intros ops2 b e1 b1 e2 b2 E1 E2.
  - cbn in E1. inversion E1; subst. exact E2.
  - cbn [run] in E1. rewrite <- app_comm_cons. cbn [run].
    destruct (exec_op o b) as [[ev b']|]; cbn [rbind fst snd] in *; [|discriminate].
    destruct (run ops1 b') as [[evs b'']|] eqn:E; cbn [rbind fst snd] in *; [|discriminate].
    inversion E1; subst. rewrite (IH _ _ _ _ _ _ E E2). reflexivity.
Qed.

Lemma forallb_rounds n : forallb op_typed (rounds n) = true.
Proof. induction n as [|n IH]; [reflexivity|]. cbn [rounds]. rewrite forallb_app, IH. reflexivity. Qed.

Lemma at_count_well_formed k : well_formed (at_count k).
Proof. split; [reflexivity|]. cbn. unfold zeros. now rewrite length_replicate. Qed.

Lemma at_count_readable k : readable (at_count k) = 0.
Proof. unfold readable, at_count. cbn. now rewrite Z.sub_diag. Qed.

Lemma at_count_writable k : writable (at_count k) = kRingBufferFrames.
Proof. unfold writable. fold (readable (at_count k)). now rewrite at_count_readable. Qed.

Lemma write_one_frame k :
  write 1 (mkMem (at_count k) one_frame)
  = Ok (true, mkMem (set_writeIndex (wrap64 (k + 1)) (at_count k)) one_frame).
Proof.
  destruct (write_ok (at_count k) one_frame 1 (at_count_well_formed k))
    as (d & E & Hl & Hw & Hu).
  { unfold kRingBufferFrames. lia. }
  { rewrite at_count_writable. unfold kRingBufferFrames. lia. }
  { cbn. lia. }
  rewrite E. f_equal. f_equal. f_equal.
  assert (d = zeros (Z.to_nat 8192)) as ->.
  { apply list_eq. intros p. unfold zeros.
    set (w := writeIndex (at_count k)) in *.
    destruct (decide (p = slot_pos (w + 0) 0)) as [->|N0].
    - rewrite (Hw 0 0) by lia. rewrite lookup_replicate_2 by (apply slot_pos_lt; lia).
      reflexivity.
    - destruct (decide (p = slot_pos (w + 0) 1)) as [->|N1].
      + rewrite (Hw 0 1) by lia. rewrite lookup_replicate_2 by (apply slot_pos_lt; lia).
        reflexivity.
      + rewrite Hu; [reflexivity|]. intros k' ch Hk Hc.
        assert (k' = 0) as -> by lia. assert (ch = 0 \/ ch = 1) as [-> | ->] by lia; assumption. }
  unfold at_count. cbn [set_writeIndex set_readIndex set_audioData writeIndex readIndex
    isActive sampleRate channels bufferFrames padding audioData silent create].
  now rewrite wrap64_add_l.
Qed.

Lemma read_one_frame k :
  exists out,
    read 1 (mkMem (set_writeIndex (wrap64 (k + 1)) (at_count k)) one_frame)
    = Ok (true, mkMem (at_count (k + 1)) out).
Proof.
  set (b1 := set_writeIndex (wrap64 (k + 1)) (at_count k)).
  assert (readable b1 = 1) as Hr.
  { unfold readable, b1, at_count. cbn. unfold wrap64. rewrite <- Zminus_mod.
    replace (k + 1 - k) with 1 by lia. reflexivity. }
  destruct (read_ok b1 one_frame 1) as (out & E & _).
  { destruct (at_count_well_formed k) as [H1 H2]. split; assumption. }
  { lia. }
  { cbn. lia. }
  { lia. }
  exists out. rewrite E. f_equal. f_equal. f_equal.
  unfold b1, at_count. cbn [set_writeIndex set_readIndex writeIndex readIndex
    isActive sampleRate channels bufferFrames padding audioData silent create].
  now rewrite wrap64_add_l.
Qed.

Lemma round_run k :
  exists evs, run one_round (at_count k) = Ok (evs, at_count (k + 1)).
Proof.
  destruct (read_one_frame k) as (out & Er).
  unfold one_round. cbn [run exec_op]. rewrite write_one_frame. cbn [rbind fst snd this].
  rewrite Er. cbn [rbind fst snd this samples]. eexists. reflexivity.
Qed.

Lemma rounds_run n : forall k,
  exists evs, run (rounds n) (at_count k) = Ok (evs, at_count (k + Z.of_nat n)).
Proof.
  induction n as [|n IH]; intros k.
  - exists []. cbn [rounds run]. now rewrite Z.add_0_r.
  - destruct (round_run k) as (e1 & E1). destruct (IH (k + 1)) as (e2 & E2).
    exists (e1 ++ e2). cbn [rounds].
    replace (k + Z.of_nat (S n)) with (k + 1 + Z.of_nat n) by lia.
    exact (run_app _ _ _ _ _ _ _ E1 E2).
Qed.

Lemma wrap_run_result :
  exists evs,
    run wrap_run silent
    = Ok (evs, set_writeIndex 0 (at_count (2 ^ 64 - 1))).
Proof.
  destruct (rounds_run (Z.to_nat (2 ^ 64 - 1)) 0) as (e1 & E1).
  rewrite Z2Nat.id, Z.add_0_l in E1 by lia.
  exists (e1 ++ [Wrote true]). unfold wrap_run.
  apply (run_app _ _ _ _ _ _ _ E1).
  cbn [run exec_op]. rewrite write_one_frame. reflexivity.
Qed.

(** ** Accesses to [audioData] stay inside the array *)

Lemma audioIndex_bound pos i ch :
  0 <= ch < kChannels ->
  0 <= audioIndex kChannels pos i ch < kRingBufferFrames * kChannels.
Proof.
  unfold kChannels. intros Hch. rewrite audioIndex_stereo by assumption.
  pose proof (slot_range (pos + i)). unfold kRingBufferFrames in *. lia.
Qed.

Lemma for_loop_audio_safe (P : Mem -> Prop) body n : forall i m,
  P m ->
  (forall j mj, i <= j < i + Z.of_nat n -> P mj ->
     audio_safe (body j mj) /\ forall u mj', body j mj = Ok (u, mj') -> P mj') ->
  audio_safe (for_loop n i body m) /\
  forall u m', for_loop n i body m = Ok (u, m') -> P m'.
Proof.
  induction n as [|n IH]; intros i m Hm Hb.
  - cbn. split; [exact I|]. unfold ret. now inversion 1; subst.
  - destruct (Hb i m ltac:(lia) Hm) as [Hs Hp].
    cbn [for_loop]. unfold bind.
    destruct (body i m) as [[u1 m1]|f] eqn:E1; cbn [rbind fst snd].
    + apply IH; [now apply (Hp u1)|]. intros j mj Hj. apply Hb. lia.
    + split; [exact Hs | discriminate].
Qed.

Lemma load_fault name (arr : list float32) i f :
  load name arr i = Fault f -> f = OutOfRange name i.
Proof.
  unfold load. destruct ((0 <=? i) && (i <? Z.of_nat (length arr))); [|congruence].
  destruct (arr !! Z.to_nat i); congruence.
Qed.

Lemma store_fault name (arr : list float32) i v f :
  store name arr i v = Fault f -> f = OutOfRange name i.
Proof.
  unfold store. destruct ((0 <=? i) && (i <? Z.of_nat (length arr))); congruence.
Qed.

Lemma write_frame_audio_safe w i m :
  array_declared m ->
  audio_safe (for_loop (Z.to_nat kChannels) 0 (fun ch =>
      v <- load_samples (sampleIndex kChannels i ch) ;;
      store_audioData (audioIndex kChannels w i ch) v) m) /\
  forall u m', for_loop (Z.to_nat kChannels) 0 (fun ch =>
      v <- load_samples (sampleIndex kChannels i ch) ;;
      store_audioData (audioIndex kChannels w i ch) v) m = Ok (u, m') ->
    array_declared m'.
Proof.
  intros Hm. apply (for_loop_audio_safe array_declared); [exact Hm|].
  intros ch mj Hch Hmj.
  pose proof (audioIndex_bound w i ch ltac:(unfold kChannels in *; lia)) as Hb.
  unfold bind, load_samples.
  destruct (load Samples (samples mj) (sampleIndex kChannels i ch)) as [v|f] eqn:El;
    cbn [rbind fst snd];
    [|apply load_fault in El; subst f; split; [exact I | discriminate]].
  unfold store_audioData. unfold array_declared in Hmj.
  rewrite store_ok by (rewrite Hmj; lia). cbn [rbind]. split; [exact I|].
  inversion 1; subst. unfold array_declared. cbn. now rewrite length_insert.
Qed.

Lemma read_frame_audio_safe r i m :
  array_declared m ->
  audio_safe (for_loop (Z.to_nat kChannels) 0 (fun ch =>
      v <- load_audioData (audioIndex kChannels r i ch) ;;
      store_samples (sampleIndex kChannels i ch) v) m) /\
  forall u m', for_loop (Z.to_nat kChannels) 0 (fun ch =>
      v <- load_audioData (audioIndex kChannels r i ch) ;;
      store_samples (sampleIndex kChannels i ch) v) m = Ok (u, m') ->
    array_declared m'.
Proof.
  intros Hm. apply (for_loop_audio_safe array_declared); [exact Hm|].
  intros ch mj Hch Hmj.
  pose proof (audioIndex_bound r i ch ltac:(unfold kChannels in *; lia)) as Hb.
  unfold bind, load_audioData. unfold array_declared in Hmj.
  destruct (lookup_lt_is_Some_2 (audioData (this mj))
              (Z.to_nat (audioIndex kChannels r i ch))) as [v Hv]; [lia|].
  rewrite (load_ok _ _ _ _ (proj1 Hb) Hv). cbn [rbind fst snd].
  unfold store_samples.
  destruct (store Samples (samples mj) (sampleIndex kChannels i ch) v) as [a|f] eqn:Es;
    cbn [rbind]; [|apply store_fault in Es; subst f; split; [exact I | discriminate]].
  split; [exact I|]. inversion 1; subst. exact Hmj.
Qed.

Lemma write_audio_safe fc m :
  channels (this m) = kChannels -> array_declared m -> audio_safe (write fc m).
Proof.
  intros Hch Hm. unfold write. rewrite (bind_ok _ _ _ _ _ (availableToWrite_eq _)).
  destruct (writable (this m) <? fc); [exact I|].
  step_field.
  step_field. rewrite Hch.
  unfold bind at 1.
  destruct (for_loop_audio_safe array_declared
    (fun i => for_loop (Z.to_nat kChannels) 0 (fun ch =>
       v <- load_samples (sampleIndex kChannels i ch) ;;
       store_audioData (audioIndex kChannels (writeIndex (this m)) i ch) v))
    (Z.to_nat fc) 0 m Hm) as [Hs _].
  { intros j mj _ Hmj. apply write_frame_audio_safe; assumption. }
  match goal with |- context [rbind ?l _] => destruct l as [[u m1]|f] end;
    cbn [rbind]; [exact I | exact Hs].
Qed.

Lemma silence_loop_audio_safe n : forall i m,
  audio_safe (for_loop n i (fun i => store_samples i zero_f) m).
Proof.
  induction n as [|n IH]; intros i m; [exact I|].
  cbn [for_loop]. unfold bind at 1, store_samples at 1.
  destruct (store Samples (samples m) i zero_f) as [a|f] eqn:Es; cbn [rbind fst snd].
  - apply IH.
  - apply store_fault in Es. subst f. exact I.
Qed.

Lemma read_audio_safe fc m :
  channels (this m) = kChannels -> array_declared m -> audio_safe (read fc m).
Proof.
  intros Hch Hm. unfold read. rewrite (bind_ok _ _ _ _ _ (availableToRead_eq _)).
  destruct (readable (this m) <? fc).
  - step_field.
    unfold bind at 1.
    pose proof (silence_loop_audio_safe
      (Z.to_nat (wrap64 (fc * channels (this m)))) 0 m) as Hs.
    match goal with |- context [rbind ?l _] => destruct l as [[u m1]|f] end;
      cbn [rbind]; [exact I | exact Hs].
  - step_field.
    step_field. rewrite Hch.
    unfold bind at 1.
    destruct (for_loop_audio_safe array_declared
      (fun i => for_loop (Z.to_nat kChannels) 0 (fun ch =>
         v <- load_audioData (audioIndex kChannels (readIndex (this m)) i ch) ;;
         store_samples (sampleIndex kChannels i ch) v))
      (Z.to_nat fc) 0 m Hm) as [Hs _].
    { intros j mj _ Hmj. apply read_frame_audio_safe; assumption. }
    match goal with |- context [rbind ?l _] => destruct l as [[u m1]|f] end;
      cbn [rbind]; [exact I | exact Hs].
Qed.

(** ** The connection and the handler *)

Lemma tryReconnect_connected os h :
  buffer h <> nullptr -> tryReconnect os h = (true, h).
Proof. unfold tryReconnect, buffer. destruct (buffer_ (shmReader_ h)); congruence. Qed.

Lemma tryReconnect_fails os h :
  Disconnected h -> os_sane os (descriptors h) ->
  attempt_succeeds os = false -> tryReconnect os h = (false, h).
Proof.
  intros Hd [Hnn Hfresh] Hf. destruct h as [r fds]. unfold Disconnected in Hd.
  cbn in Hd, Hfresh. subst r. unfold tryReconnect, shm_open, mmap, close, attempt_succeeds in *.
  cbn [shmReader_ buffer_ descriptors fd_].
  destruct (Z.eqb_spec (shm_open_answer os) (-1)) as [E|N].
  - now rewrite E.
  - destruct (mmap_answer os); cbn in Hf; try discriminate.
    destruct Hfresh as [?|Hfresh]; [contradiction|].
    do 2 f_equal. apply set_eq. intros x.
    rewrite elem_of_difference, elem_of_union, elem_of_singleton.
    split; [tauto|]. intros Hx. split; [tauto|]. now intros ->.
Qed.

Lemma tryReconnect_succeeds os h :
  Disconnected h -> os_sane os (descriptors h) ->
  attempt_succeeds os = true ->
  tryReconnect os h
  = (true, mkHost (mkReader (shm_open_answer os) mapped)
             ({[shm_open_answer os]} ∪ descriptors h)).
Proof.
  intros Hd [Hnn Hfresh] Hs. destruct h as [r fds]. unfold Disconnected in Hd.
  cbn in Hd. subst r. unfold tryReconnect, shm_open, mmap, attempt_succeeds in *.
  cbn [shmReader_ buffer_ descriptors fd_].
  destruct (Z.eqb_spec (shm_open_answer os) (-1)) as [E|N]; [discriminate|].
  destruct (mmap_answer os); cbn in Hs; try discriminate; try contradiction.
  reflexivity.
Qed.

(** The reader is either disconnected, with no descriptor, or holds a
    mapping: the constructor establishes it and [tryReconnect] keeps it. *)
Lemma SharedMemoryReader_new_state os fds :
  os_sane os fds ->
  let h := SharedMemoryReader_new os fds in
  (Disconnected h /\ descriptors h = fds) \/
  (buffer h = mapped /\ descriptors h = {[shm_open_answer os]} ∪ fds).
Proof.
  intros [Hnn Hfresh]. unfold SharedMemoryReader_new, shm_open, mmap, close, Disconnected, buffer.
  destruct (Z.eqb_spec (shm_open_answer os) (-1)) as [E|N].
  - left. rewrite E. split; reflexivity.
  - destruct (mmap_answer os); [contradiction | left | right]; cbn; split; try reflexivity.
    destruct Hfresh as [?|Hfresh]; [contradiction|].
    apply set_eq. intros x.
    rewrite elem_of_difference, elem_of_union, elem_of_singleton.
    split; [tauto|]. intros Hx. split; [tauto|]. now intros ->.
Qed.

Lemma tryReconnect_state os h :
  os_sane os (descriptors h) ->
  Disconnected h \/ buffer h = mapped ->
  Disconnected (snd (tryReconnect os h)) \/ buffer (snd (tryReconnect os h)) = mapped.
Proof.
  intros Hs [Hd|Hm].
  - destruct (attempt_succeeds os) eqn:Ea.
    + rewrite (tryReconnect_succeeds os h Hd Hs Ea). now right.
    + rewrite (tryReconnect_fails os h Hd Hs Ea). now left.
  - rewrite tryReconnect_connected by congruence. now right.
Qed.

Lemma reconnect_attempts_fail answers : forall h,
  Disconnected h ->
  Forall (fun os => os_sane os (descriptors h) /\ attempt_succeeds os = false) answers ->
  reconnect_attempts answers h = h.
Proof.
  induction answers as [|os rest IH]; intros h Hd Hall; [reflexivity|].
  inversion Hall as [|? ? [Hs Hf] Hrest]; subst.
  cbn [reconnect_attempts]. rewrite (tryReconnect_fails os h Hd Hs Hf). cbn [snd].
  apply IH; assumption.
Qed.

Lemma reconnect_attempts_connected answers : forall h,
  buffer h <> nullptr -> reconnect_attempts answers h = h.
Proof.
  induction answers as [|os rest IH]; intros h Hb; [reflexivity|].
  cbn [reconnect_attempts]. rewrite (tryReconnect_connected os h Hb). cbn [snd].
  now apply IH.
Qed.

Lemma memset_zero_ok dst bc :
  0 <= bc <= 4 * Z.of_nat (length dst) ->
  exists out,
    memset_zero dst bc = Ok out /\ length out = length dst /\
    take (Z.to_nat (bc / 4)) out = zeros (Z.to_nat (bc / 4)).
Proof.
  intros Hbc. unfold memset_zero.
  destruct (Z.ltb_spec (4 * Z.of_nat (length dst)) bc) as [?|_]; [lia|].
  assert (bc / 4 <= Z.of_nat (length dst)) as Hw.
  { apply Z.div_le_upper_bound; lia. }
  assert (0 <= bc / 4) as Hw0 by (apply Z.div_pos; lia).
  eexists. split; [reflexivity|]. split.
  - rewrite length_app. unfold zeros. rewrite length_replicate.
    pose proof (length_drop dst (Z.to_nat (bc / 4))) as Hd.
    destruct (drop (Z.to_nat (bc / 4)) dst) as [|x rest]; cbn [length] in *; lia.
  - apply take_app_length'. unfold zeros. now rewrite length_replicate.
Qed.

Lemma after_reconnect_not_failed os h :
  buffer h <> MAP_FAILED -> buffer (after_reconnect os h) <> MAP_FAILED.
Proof.
  unfold after_reconnect, buffer, tryReconnect, shm_open, mmap. intros Hb.
  destruct (buffer_ (shmReader_ h)) eqn:E; try congruence.
  destruct (shm_open_answer os =? -1); cbn; [congruence|].
  destruct (mmap_answer os); cbn; congruence.
Qed.

(** Without a mapping, or with an inactive producer, the handler zeroes the
    destination and leaves the segment alone. *)
Lemma handler_silent os shm h bytes bc :
  buffer h <> MAP_FAILED -> 0 <= bc <= 4 * Z.of_nat (length bytes) ->
  buffer (after_reconnect os h) = nullptr \/ isActive shm = false ->
  exists out,
    OnReadClientInput os shm h bytes bc = Ok (after_reconnect os h, shm, out) /\
    length out = length bytes /\
    take (Z.to_nat (bc / 4)) out = zeros (Z.to_nat (bc / 4)).
Proof.
  intros Hb Hbc Hcase.
  pose proof (after_reconnect_not_failed os h Hb) as Hb1.
  destruct (memset_zero_ok bytes bc Hbc) as (out & E & Hl & Hz).
  exists out. split; [|split; assumption].
  unfold OnReadClientInput. fold (after_reconnect os h).
  destruct (buffer (after_reconnect os h)) eqn:Eb; try congruence.
  - now rewrite E.
  - destruct Hcase as [?|Hi]; [discriminate|]. rewrite Hi. now rewrite E.
Qed.

Lemma numSamples_eq bc :
  0 <= bc < 2 ^ 32 -> wrap32 (bc / 4 / ChannelCount) = bc / (4 * ChannelCount).
Proof.
  intros H. unfold ChannelCount, wrap32. rewrite Z.div_div by lia.
  apply Z.mod_small. split; [apply Z.div_pos; lia|].
  apply Z.div_lt_upper_bound; lia.
Qed.

(** * The code on concrete inputs *)

(** Three frames written at the last slot of the array continue at its
    start and are read back unchanged. *)
Example wrap_example :
  match run [Write [1; 1; 2; 2; 3; 3] 3; Read [9; 9; 9; 9; 9; 9] 3] (at_count 4095) with
  | Ok (evs, b) => evs = [ Wrote true; ReadBack true [1; 1; 2; 2; 3; 3] ]
                   /\ take 4 (audioData b) = [2; 2; 3; 3]
                   /\ drop (Z.to_nat 8190) (audioData b) = [1; 1]
                   /\ writeIndex b = 4098 /\ readIndex b = 4098
  | Fault _ => False
  end.
Proof. vm_compute. repeat split. Qed.

(** Three frames in, two out, then a read of two with one frame left:
    silence, and [readIndex] stays where the first read left it. *)
Example short_scenario_runs :
  match run short_scenario silent with
  | Ok (evs, b) => evs = [ Wrote true; ReadBack true [1; 1; 2; 2];
                           ReadBack false [0; 0; 0; 0] ]
                   /\ writeIndex b = 3 /\ readIndex b = 2
  | Fault _ => False
  end.
Proof. vm_compute. repeat split. Qed.

(** The handler on a buffer holding two frames from an active producer, and
    the same call once the producer has cleared its flag. *)
Example handler_example :
  match write 2 (mkMem (set_isActive true silent) [1; 1; 2; 2]) with
  | Ok (_, m) =>
      OnReadClientInput no_segment (this m) connected_host [9; 9; 9; 9; 9] 16
      = Ok (connected_host, set_readIndex 2 (this m), [1; 1; 2; 2; 9]) /\
      OnReadClientInput no_segment (set_isActive false (this m)) connected_host
        [9; 9; 9; 9; 9] 16
      = Ok (connected_host, set_isActive false (this m), [0; 0; 0; 0; 9])
  | Fault _ => False
  end.
Proof. vm_compute. split; reflexivity. Qed.

(** * The claims *)

(** C1. Round-trip data integrity: started on a fresh buffer, every sequence
    of writes and reads (frame counts in range, arrays large enough) runs to
    the end and shows the caller exactly what a first-in first-out queue of
    frames of capacity [kRingBufferFrames] shows: each covered read returns
    the oldest unread frames, bit for bit and in the order written, wherever
    the slots lie in the circular array, and the frames still unread are
    those of the queue. *)
Theorem ring_buffer_round_trip ops pad data :
  length data = Z.to_nat (kRingBufferFrames * kChannels) ->
  forallb op_ok ops = true ->
  exists b,
    run ops (create pad data) = Ok (fst (fifo_run ops []), b) /\
    represents b (snd (fifo_run ops [])).
Proof.
  intros Hl Hok.
  destruct (run_refines ops (create pad data) [] (good_create pad data Hl) Hok)
    as (b & E & _ & _ & Hr).
  exists b. split; assumption.
Qed.

Lemma ring_buffer_round_trip_witness :
  exists b,
    run wrap_scenario silent = Ok (fst (fifo_run wrap_scenario []), b) /\
    represents b (snd (fifo_run wrap_scenario [])).
Proof.
  apply (ring_buffer_round_trip wrap_scenario [] (zeros (Z.to_nat 8192))).
  - vm_compute. reflexivity.
  - vm_compute. reflexivity.
Defined.

(** C2. Write success postcondition: on a well-formed buffer whose counters
    are at most a buffer length apart, a write of [frameCount <=
    kRingBufferFrames] frames with [availableToWrite() >= frameCount]
    returns [true]; afterwards [availableToRead()] returns its former value
    plus [frameCount], and [writeIndex] has advanced by [frameCount]. *)
Theorem write_success_postcondition m fc aw ar :
  well_formed (this m) ->
  availableToWrite m = Ok (aw, m) -> availableToRead m = Ok (ar, m) ->
  ar <= kRingBufferFrames ->
  0 <= fc <= kRingBufferFrames -> fc <= aw ->
  2 * fc <= Z.of_nat (length (samples m)) ->
  exists m',
    write fc m = Ok (true, m') /\
    availableToRead m' = Ok (ar + fc, m') /\
    writeIndex (this m') = wrap64 (writeIndex (this m) + fc).
Proof.
  intros Hwf Haw Har Hinv Hfc Hfit Hsmp.
  rewrite availableToWrite_eq in Haw. rewrite availableToRead_eq in Har.
  injection Haw as <-. injection Har as <-.
  destruct m as [b smp]. cbn [this samples] in *.
  destruct (write_ok b smp fc Hwf Hfc ltac:(lia) Hsmp) as (d & E & _).
  eexists. split; [exact E|]. split; [|reflexivity].
  rewrite availableToRead_eq. cbn [this].
  rewrite readable_after_write; [reflexivity | unfold counters_ok; lia | lia].
Qed.

Lemma write_success_postcondition_witness :
  exists m',
    write 3 (mkMem silent [1; 1; 2; 2; 3; 3]) = Ok (true, m') /\
    availableToRead m' = Ok (0 + 3, m') /\
    writeIndex (this m') = wrap64 (writeIndex silent + 3).
Proof.
  apply (write_success_postcondition (mkMem silent [1; 1; 2; 2; 3; 3]) 3 4096 0).
  - split; vm_compute; reflexivity.
  - reflexivity.
  - reflexivity.
  - vm_compute. discriminate.
  - vm_compute. split; discriminate.
  - vm_compute. discriminate.
  - vm_compute. discriminate.
Defined.

(** C3. Overflow atomicity: in every state and for every frame count, when
    [availableToWrite()] returns less than [frameCount], [write] returns
    [false] and the object (both counters, every stored sample, all
    metadata) and the source array are exactly as before. *)
Theorem write_overflow_atomic m fc aw m0 :
  availableToWrite m = Ok (aw, m0) -> aw < fc -> write fc m = Ok (false, m).
Proof.
  intros Haw Hlt. rewrite availableToWrite_eq in Haw. injection Haw as <- <-.
  now apply write_full.
Qed.

Lemma write_overflow_atomic_witness :
  write 4097 (mkMem silent []) = Ok (false, mkMem silent []).
Proof.
  apply (write_overflow_atomic (mkMem silent []) 4097 4096 (mkMem silent [])).
  - reflexivity.
  - vm_compute. reflexivity.
Defined.

(** C4. Underrun policy: in every state and for every frame count, when
    [availableToRead()] returns less than [frameCount] and the destination
    holds [frameCount * channels] floats, [read] stores zero in each of
    them, returns [false], and leaves [readIndex] and the whole object
    unchanged. *)
Theorem read_underrun_all_or_nothing m fc ar m0 :
  availableToRead m = Ok (ar, m0) -> ar < fc ->
  0 <= channels (this m) ->
  fc * channels (this m) <= Z.of_nat (length (samples m)) ->
  fc * channels (this m) < 2 ^ 64 ->
  exists out,
    read fc m = Ok (false, mkMem (this m) out) /\
    length out = length (samples m) /\
    take (Z.to_nat (fc * channels (this m))) out
      = zeros (Z.to_nat (fc * channels (this m))) /\
    drop (Z.to_nat (fc * channels (this m))) out
      = drop (Z.to_nat (fc * channels (this m))) (samples m).
Proof.
  intros Har Hlt Hch Hlen Hbig. rewrite availableToRead_eq in Har.
  injection Har as <- <-. destruct m as [b dst]. cbn [this samples] in *.
  eexists. split; [now apply read_underrun|].
  set (n := Z.to_nat (fc * channels b)).
  assert (length (zeros n) = n) as Hz by apply length_replicate.
  split; [|split].
  - rewrite length_app, Hz, length_drop. lia.
  - now apply take_app_length'.
  - now apply drop_app_length'.
Qed.

Lemma read_underrun_all_or_nothing_witness :
  exists out,
    read 2 (mkMem silent [9; 9; 9; 9; 9]) = Ok (false, mkMem silent out) /\
    length out = 5%nat /\ take 4 out = zeros 4 /\ drop 4 out = [9].
Proof.
  apply (read_underrun_all_or_nothing
           (mkMem silent [9; 9; 9; 9; 9]) 2 0 (mkMem silent [9; 9; 9; 9; 9])).
  - reflexivity.
  - reflexivity.
  - vm_compute. discriminate.
  - vm_compute. discriminate.
  - vm_compute. reflexivity.
Defined.

(** C5, as stated, fails on a run long enough for the 64-bit [writeIndex] to
    wrap: after [2 ^ 64 - 1] rounds of one frame written and read back, one
    more frame written leaves [writeIndex = 0] below
    [readIndex = 2 ^ 64 - 1]. *)
Lemma counters_invariant_counterexample :
  forallb op_typed wrap_run = true /\
  exists evs b,
    run wrap_run (create [] (zeros (Z.to_nat 8192))) = Ok (evs, b) /\
    writeIndex b = 0 /\ readIndex b = 2 ^ 64 - 1 /\
    ~ (writeIndex b >= readIndex b).
Proof.
  split.
  - unfold wrap_run. rewrite forallb_app, forallb_rounds. reflexivity.
  - destruct wrap_run_result as (evs & E).
    exists evs, (set_writeIndex 0 (at_count (2 ^ 64 - 1))).
    split; [exact E|]. split; [reflexivity|]. split; [reflexivity|].
    cbn. vm_compute. intros H. now apply H.
Qed.

(** C5 (amended). Counter invariants: starting from the initial state, after
    every sequence of write and read calls the distance from [readIndex] to
    [writeIndex] modulo [2 ^ 64], which is what [availableToRead()] returns,
    is non-negative and at most [kRingBufferFrames]; and as long as fewer
    than [2 ^ 64] frames have been written in all, [writeIndex >= readIndex]
    and [writeIndex - readIndex <= kRingBufferFrames]. *)
Theorem counters_invariant ops pad data evs b :
  forallb op_typed ops = true ->
  run ops (create pad data) = Ok (evs, b) ->
  (forall smp, exists a,
     availableToRead (mkMem b smp) = Ok (a, mkMem b smp) /\
     0 <= a <= kRingBufferFrames) /\
  (frames_accepted ops evs < 2 ^ 64 ->
   writeIndex b >= readIndex b /\
   writeIndex b - readIndex b <= kRingBufferFrames).
Proof.
  intros Ht E.
  destruct (run_tracks ops _ _ _ 0 0 Ht (tracks_create pad data) E) as (R & Htr & Hn).
  pose proof (tracks_readable _ _ _ Htr) as Hr.
  destruct Htr as (Hw & Hrd & H1 & H2). rewrite Z.add_0_l in *.
  split.
  - intros smp. exists (readable b). split; [reflexivity|]. lia.
  - intros Hsmall. rewrite Hw, Hrd, !wrap64_small by lia. lia.
Qed.

Lemma counters_invariant_witness :
  exists evs b,
    run short_scenario silent = Ok (evs, b) /\
    (forall smp, exists a,
       availableToRead (mkMem b smp) = Ok (a, mkMem b smp) /\
       0 <= a <= kRingBufferFrames) /\
    (frames_accepted short_scenario evs < 2 ^ 64 ->
     writeIndex b >= readIndex b /\
     writeIndex b - readIndex b <= kRingBufferFrames).
Proof.
  destruct (run short_scenario silent) as [[evs b]|f] eqn:E;
    [|vm_compute in E; discriminate].
  exists evs, b. split; [reflexivity|].
  apply (counters_invariant short_scenario [] (zeros (Z.to_nat 8192)) evs b).
  - reflexivity.
  - exact E.
Defined.

(** C9. Single-writer frame condition: whenever [write] returns it has left
    [readIndex] as it was, whenever [read] returns it has left [writeIndex]
    as it was; neither changes [sampleRate], [channels], [bufferFrames] or
    [isActive]; and the two queries return with the whole state unchanged. *)
Theorem single_writer_frame fc m :
  (forall ok m', write fc m = Ok (ok, m') ->
     readIndex (this m') = readIndex (this m) /\
     sampleRate (this m') = sampleRate (this m) /\
     channels (this m') = channels (this m) /\
     bufferFrames (this m') = bufferFrames (this m) /\
     isActive (this m') = isActive (this m)) /\
  (forall ok m', read fc m = Ok (ok, m') ->
     writeIndex (this m') = writeIndex (this m) /\
     sampleRate (this m') = sampleRate (this m) /\
     channels (this m') = channels (this m) /\
     bufferFrames (this m') = bufferFrames (this m) /\
     isActive (this m') = isActive (this m)) /\
  (exists a, availableToRead m = Ok (a, m)) /\
  (exists a, availableToWrite m = Ok (a, m)).
Proof.
  split; [|split; [|split]].
  - intros ok m' E. apply write_inv in E.
    destruct E as (_ & H1 & H2 & H3 & H4 & H5 & _). repeat split; assumption.
  - intros ok m' E. apply read_inv in E.
    destruct E as (H1 & H2 & H3 & H4 & H5 & _). repeat split; assumption.
  - eexists. apply availableToRead_eq.
  - eexists. apply availableToWrite_eq.
Qed.

Lemma single_writer_frame_witness :
  (exists ok m', write 3 (mkMem silent [1; 1; 2; 2; 3; 3]) = Ok (ok, m') /\
     readIndex (this m') = 0 /\ channels (this m') = 2) /\
  (exists ok m', read 3 (mkMem silent [1; 1; 2; 2; 3; 3]) = Ok (ok, m') /\
     writeIndex (this m') = 0 /\ isActive (this m') = false).
Proof.
  split.
  - destruct (write 3 (mkMem silent [1; 1; 2; 2; 3; 3])) as [[ok m']|f] eqn:E;
      [|vm_compute in E; discriminate].
    exists ok, m'. split; [reflexivity|].
    destruct (proj1 (single_writer_frame 3 (mkMem silent [1; 1; 2; 2; 3; 3])) ok m' E)
      as (H1 & _ & H3 & _).
    split; [exact H1 | exact H3].
  - destruct (read 3 (mkMem silent [1; 1; 2; 2; 3; 3])) as [[ok m']|f] eqn:E;
      [|vm_compute in E; discriminate].
    exists ok, m'. split; [reflexivity|].
    destruct (proj1 (proj2 (single_writer_frame 3 (mkMem silent [1; 1; 2; 2; 3; 3]))) ok m' E)
      as (H1 & _ & _ & _ & H5).
    split; [exact H1 | exact H5].
Defined.

(** C10. In-bounds storage access: with [channels] at its creation value
    [kChannels], the index [((pos + i) % kRingBufferFrames) * channels + ch]
    is below [kRingBufferFrames * kChannels] for every counter value [pos],
    every [i] and every channel [ch], and neither [write] nor [read] ever
    accesses [audioData] outside the array. *)
Theorem audioData_access_in_bounds :
  (forall pos i ch, 0 <= ch < kChannels ->
     0 <= audioIndex kChannels pos i ch < kRingBufferFrames * kChannels) /\
  (forall fc m i,
     channels (this m) = kChannels ->
     length (audioData (this m)) = Z.to_nat (kRingBufferFrames * kChannels) ->
     write fc m <> Fault (OutOfRange AudioData i) /\
     read fc m <> Fault (OutOfRange AudioData i)).
Proof.
  split.
  - apply audioIndex_bound.
  - intros fc m i Hch Hlen. split; intros E.
    + pose proof (write_audio_safe fc m Hch Hlen) as Hs. now rewrite E in Hs.
    + pose proof (read_audio_safe fc m Hch Hlen) as Hs. now rewrite E in Hs.
Qed.

Lemma audioData_access_in_bounds_witness :
  0 <= audioIndex kChannels (2 ^ 64 - 1) 5 1 < kRingBufferFrames * kChannels /\
  write 2 (mkMem (at_count (2 ^ 64 - 1)) [1; 1; 2; 2]) <> Fault (OutOfRange AudioData 8192) /\
  read 2 (mkMem (at_count (2 ^ 64 - 1)) [1; 1; 2; 2]) <> Fault (OutOfRange AudioData 8192).
Proof.
  split.
  - apply (proj1 audioData_access_in_bounds (2 ^ 64 - 1) 5 1).
    vm_compute. split; discriminate || reflexivity.
  - apply (proj2 audioData_access_in_bounds 2
             (mkMem (at_count (2 ^ 64 - 1)) [1; 1; 2; 2]) 8192).
    + reflexivity.
    + vm_compute. reflexivity.
Defined.

(** C6. Liveness gating: on every invocation, if after the reconnection
    attempt no buffer is mapped, or one is mapped and its [isActive] flag is
    false, the handler returns with the destination zeroed over
    [bytesCount] bytes and with the segment exactly as it was: the ring
    buffer is not read, whatever [availableToRead()] is. *)
Theorem liveness_gating os shm h bytes bc :
  buffer h <> MAP_FAILED ->
  0 <= bc <= 4 * Z.of_nat (length bytes) ->
  buffer (after_reconnect os h) = nullptr \/
  (buffer (after_reconnect os h) = mapped /\ isActive shm = false) ->
  exists out,
    OnReadClientInput os shm h bytes bc = Ok (after_reconnect os h, shm, out) /\
    length out = length bytes /\
    take (Z.to_nat (bc / 4)) out = zeros (Z.to_nat (bc / 4)).
Proof.
  intros Hb Hbc Hcase. apply handler_silent; try assumption.
  destruct Hcase as [?|[_ ?]]; [now left | now right].
Qed.

Lemma liveness_gating_witness :
  readable (set_writeIndex 3 silent) = 3 /\
  exists out,
    OnReadClientInput no_segment (set_writeIndex 3 silent) connected_host
      [9; 9; 9; 9] 16
    = Ok (connected_host, set_writeIndex 3 silent, out) /\
    length out = 4%nat /\ take 4 out = zeros 4.
Proof.
  split; [reflexivity|].
  apply (liveness_gating no_segment (set_writeIndex 3 silent) connected_host
           [9; 9; 9; 9] 16).
  - discriminate.
  - vm_compute. split; discriminate.
  - right. split; reflexivity.
Defined.

(** C7. Total real-time path: on every invocation with a destination of at
    least [bytesCount] bytes and a well-formed segment, the handler returns;
    with [n = bytesCount / (4 * ChannelCount)], either the destination is
    zeroed (all [bytesCount] bytes, so all [n] frames) and the segment is
    untouched, or a buffer is mapped, its producer is active, [n] frames were
    available, and the first [n] frames of the destination are the [n] oldest
    unread frames while the rest of the destination is unchanged. *)
Theorem handler_total os shm h bytes bc :
  buffer h <> MAP_FAILED -> well_formed shm ->
  0 <= bc < 2 ^ 32 -> bc <= 4 * Z.of_nat (length bytes) ->
  exists shm' out,
    OnReadClientInput os shm h bytes bc = Ok (after_reconnect os h, shm', out) /\
    length out = length bytes /\
    ((shm' = shm /\
      take (Z.to_nat (bc / 4)) out = zeros (Z.to_nat (bc / 4)) /\
      take (Z.to_nat (ChannelCount * (bc / (4 * ChannelCount)))) out
        = zeros (Z.to_nat (ChannelCount * (bc / (4 * ChannelCount))))) \/
     (buffer (after_reconnect os h) = mapped /\ isActive shm = true /\
      bc / (4 * ChannelCount) <= readable shm /\
      shm' = set_readIndex (wrap64 (readIndex shm + bc / (4 * ChannelCount))) shm /\
      (forall k ch, 0 <= k < bc / (4 * ChannelCount) -> 0 <= ch < ChannelCount ->
         out !! Z.to_nat (ChannelCount * k + ch)
         = audioData shm !! slot_pos (readIndex shm + k) ch) /\
      drop (Z.to_nat (ChannelCount * (bc / (4 * ChannelCount)))) out
        = drop (Z.to_nat (ChannelCount * (bc / (4 * ChannelCount)))) bytes)).
Proof.
  intros Hb Hwf Hbc Hlen.
  pose proof (numSamples_eq bc Hbc) as Hn.
  set (n := bc / (4 * ChannelCount)) in *.
  assert (0 <= n /\ ChannelCount * n <= bc / 4) as [Hn0 Hn1].
  { subst n. unfold ChannelCount. rewrite <- Z.div_div by lia.
    split; [apply Z.div_pos; [apply Z.div_pos|]; lia|].
    apply Z.mul_div_le. lia. }
  assert (bc / 4 <= Z.of_nat (length bytes)) as Hq
    by (apply Z.div_le_upper_bound; lia).
  assert (bc / 4 < 2 ^ 32) as Hq32 by (apply Z.div_lt_upper_bound; lia).
  assert (forall out, take (Z.to_nat (bc / 4)) out = zeros (Z.to_nat (bc / 4)) ->
            take (Z.to_nat (ChannelCount * n)) out = zeros (Z.to_nat (ChannelCount * n)))
    as Hshrink.
  { intros out Hz.
    replace (Z.to_nat (ChannelCount * n))
      with (Z.to_nat (ChannelCount * n) `min` Z.to_nat (bc / 4))%nat by lia.
    rewrite <- take_take, Hz. unfold zeros. now rewrite take_replicate. }
  destruct (buffer (after_reconnect os h)) eqn:Eb.
  - destruct (handler_silent os shm h bytes bc Hb ltac:(lia) ltac:(now left))
      as (out & E & Hl & Hz).
    exists shm, out. split; [exact E|]. split; [exact Hl|]. left. auto.
  - now apply after_reconnect_not_failed in Eb.
  - destruct (isActive shm) eqn:Ea.
    2:{ destruct (handler_silent os shm h bytes bc Hb ltac:(lia) ltac:(now right))
          as (out & E & Hl & Hz).
        exists shm, out. split; [exact E|]. split; [exact Hl|]. left. auto. }
    unfold OnReadClientInput. fold (after_reconnect os h). rewrite Eb, Ea, Hn.
    unfold ChannelCount in *.
    destruct (Z.lt_ge_cases (readable shm) n) as [Hunder|Hcov].
    + destruct Hwf as [Hch Hwl].
      rewrite read_underrun by (rewrite ?Hch; unfold kChannels; lia). cbn [rbind fst snd this samples].
      set (out1 := zeros _ ++ drop _ bytes).
      assert (length out1 = length bytes) as Hl1.
      { subst out1. rewrite length_app, length_drop. unfold zeros.
        rewrite length_replicate, Hch. unfold kChannels. lia. }
      destruct (memset_zero_ok out1 bc ltac:(lia)) as (out & E & Hl & Hz).
      rewrite E. cbn [rbind]. exists shm, out.
      split; [reflexivity|]. split; [congruence|]. left. auto.
    + destruct (read_ok shm bytes n Hwf ltac:(lia) ltac:(lia) ltac:(lia))
        as (out & E & Hl & Hr & Hu).
      rewrite E. cbn [rbind fst snd this samples].
      exists (set_readIndex (wrap64 (readIndex shm + n)) shm), out.
      split; [reflexivity|]. split; [exact Hl|]. right.
      repeat split; try assumption; try lia.
      apply list_eq. intros p. rewrite !lookup_drop. apply Hu. lia.
Qed.

Lemma handler_total_witness :
  exists shm' out,
    OnReadClientInput no_segment (set_isActive true (set_writeIndex 2 silent))
      connected_host [9; 9; 9; 9; 9] 16
    = Ok (connected_host, shm', out) /\
    length out = 5%nat /\
    ((shm' = set_isActive true (set_writeIndex 2 silent) /\
      take 4 out = zeros 4 /\ take 4 out = zeros 4) \/
     (mapped = mapped /\ true = true /\
      2 <= readable (set_isActive true (set_writeIndex 2 silent)) /\
      shm' = set_readIndex 2 (set_isActive true (set_writeIndex 2 silent)) /\
      (forall k ch, 0 <= k < 2 -> 0 <= ch < 2 ->
         out !! Z.to_nat (2 * k + ch)
         = audioData silent !! slot_pos (0 + k) ch) /\
      drop 4 out = [9])).
Proof.
  apply (handler_total no_segment (set_isActive true (set_writeIndex 2 silent))
           connected_host [9; 9; 9; 9; 9] 16).
  - discriminate.
  - split; vm_compute; reflexivity.
  - vm_compute. split; [discriminate | reflexivity].
  - vm_compute. discriminate.
Defined.

(** C8. Reconnect idempotence: in the connected state [tryReconnect]
    returns [true] and changes nothing, however often it is called; in the
    disconnected state every failed attempt leaves the reader and the
    descriptor table exactly as they were (buffer null, no descriptor left
    open), so any number of failures can precede the next attempt, which
    returns [true] exactly when open and map both succeed and then holds the
    mapping and its descriptor. *)
Theorem tryReconnect_idempotent answers os h :
  (buffer h <> nullptr ->
     tryReconnect os h = (true, h) /\ reconnect_attempts answers h = h) /\
  (Disconnected h ->
   Forall (fun a => os_sane a (descriptors h) /\ attempt_succeeds a = false) answers ->
   os_sane os (descriptors h) ->
     reconnect_attempts answers h = h /\
     fst (tryReconnect os (reconnect_attempts answers h)) = attempt_succeeds os /\
     (attempt_succeeds os = false ->
        snd (tryReconnect os (reconnect_attempts answers h)) = h) /\
     (attempt_succeeds os = true ->
        snd (tryReconnect os (reconnect_attempts answers h))
        = mkHost (mkReader (shm_open_answer os) mapped)
            ({[shm_open_answer os]} ∪ descriptors h))).
Proof.
  split.
  - intros Hb. split; [now apply tryReconnect_connected|].
    now apply reconnect_attempts_connected.
  - intros Hd Hall Hs. rewrite (reconnect_attempts_fail answers h Hd Hall).
    split; [reflexivity|].
    destruct (attempt_succeeds os) eqn:Ea.
    + rewrite (tryReconnect_succeeds os h Hd Hs Ea). cbn [fst snd].
      split; [reflexivity|]. split; [discriminate | reflexivity].
    + rewrite (tryReconnect_fails os h Hd Hs Ea). cbn [fst snd].
      split; [reflexivity|]. split; [reflexivity | discriminate].
Qed.

Lemma tryReconnect_idempotent_witness :
  (tryReconnect no_segment connected_host = (true, connected_host) /\
   reconnect_attempts [no_segment; no_mapping] connected_host = connected_host) /\
  (reconnect_attempts [no_segment; no_mapping] (SharedMemoryReader_new no_segment ∅)
   = SharedMemoryReader_new no_segment ∅ /\
   tryReconnect segment_ready
     (reconnect_attempts [no_segment; no_mapping] (SharedMemoryReader_new no_segment ∅))
   = (true, mkHost (mkReader 7 mapped) ({[7]} ∪ ∅))).
Proof.
  pose proof (tryReconnect_idempotent [no_segment; no_mapping] no_segment
                connected_host) as [Hc _].
  pose proof (tryReconnect_idempotent [no_segment; no_mapping] segment_ready
                (SharedMemoryReader_new no_segment ∅)) as [_ Hd].
  split.
  - apply Hc. discriminate.
  - destruct Hd as (H1 & H2 & _ & H4).
    + reflexivity.
    + constructor; [|constructor; [|constructor]].
      * split; [split; [discriminate | now left] | reflexivity].
      * split; [split; [discriminate | right; apply not_elem_of_empty] | reflexivity].
    + split; [discriminate | right; apply not_elem_of_empty].
    + split; [exact H1|]. rewrite (surjective_pairing (tryReconnect _ _)).
      rewrite H2, H4 by reflexivity. reflexivity.
Defined.

(** * Further properties of the code *)

(** ** SharedMemory.hpp *)

(** X1. In every state a run reaches from a fresh buffer, the two queries
    add up to the capacity: [availableToRead() + availableToWrite() =
    kRingBufferFrames]. *)
Theorem available_frames_add_up ops pad data evs b smp :
  forallb op_typed ops = true ->
  run ops (create pad data) = Ok (evs, b) ->
  exists ar aw,
    availableToRead (mkMem b smp) = Ok (ar, mkMem b smp) /\
    availableToWrite (mkMem b smp) = Ok (aw, mkMem b smp) /\
    0 <= ar /\ 0 <= aw /\ ar + aw = kRingBufferFrames.
Proof.
  intros Ht E.
  destruct (run_tracks ops _ _ _ 0 0 Ht (tracks_create pad data) E) as (R & Htr & _).
  pose proof (tracks_readable _ _ _ Htr) as Hr.
  pose proof (tracks_writable _ _ _ Htr) as Hw.
  destruct Htr as (_ & _ & H1 & H2).
  exists (readable b), (writable b). split; [reflexivity|]. split; [reflexivity|]. lia.
Qed.

Lemma available_frames_add_up_witness :
  exists evs b,
    run short_scenario silent = Ok (evs, b) /\
    exists ar aw,
      availableToRead (mkMem b []) = Ok (ar, mkMem b []) /\
      availableToWrite (mkMem b []) = Ok (aw, mkMem b []) /\
      0 <= ar /\ 0 <= aw /\ ar + aw = kRingBufferFrames.
Proof.
  destruct (run short_scenario silent) as [[evs b]|f] eqn:E;
    [|vm_compute in E; discriminate].
  exists evs, b. split; [reflexivity|].
  apply (available_frames_add_up short_scenario [] (zeros (Z.to_nat 8192)) evs b []).
  - reflexivity.
  - exact E.
Defined.

(** X2. Read success postcondition: on a well-formed buffer whose counters
    are at most a buffer length apart, a read of [frameCount <=
    availableToRead()] frames into a destination of [2 * frameCount] floats
    returns [true], advances [readIndex] by [frameCount], lowers
    [availableToRead()] and raises [availableToWrite()] by exactly
    [frameCount], and leaves the stored samples as they were. *)
Theorem read_success_postcondition m fc ar aw :
  well_formed (this m) ->
  availableToRead m = Ok (ar, m) -> availableToWrite m = Ok (aw, m) ->
  ar <= kRingBufferFrames ->
  0 <= fc <= ar ->
  2 * fc <= Z.of_nat (length (samples m)) ->
  exists m',
    read fc m = Ok (true, m') /\
    readIndex (this m') = wrap64 (readIndex (this m) + fc) /\
    availableToRead m' = Ok (ar - fc, m') /\
    availableToWrite m' = Ok (aw + fc, m') /\
    audioData (this m') = audioData (this m).
Proof.
  intros Hwf Har Haw Hinv Hfc Hdst.
  rewrite availableToRead_eq in Har. rewrite availableToWrite_eq in Haw.
  injection Har as <-. injection Haw as <-.
  destruct m as [b dst]. cbn [this samples] in *.
  unfold kRingBufferFrames in Hinv.
  destruct (read_ok b dst fc Hwf Hfc Hdst ltac:(lia)) as (out & E & _).
  pose proof (readable_after_read b fc Hfc) as Hr.
  pose proof (readable_range b) as Hrr.
  eexists. split; [exact E|]. split; [reflexivity|].
  rewrite availableToRead_eq, availableToWrite_eq. cbn [this].
  split; [now rewrite Hr|]. split; [|reflexivity].
  do 2 f_equal.
  rewrite !writable_counters_ok by (unfold counters_ok, kRingBufferFrames; lia).
  lia.
Qed.

Lemma read_success_postcondition_witness :
  exists m',
    read 2 (mkMem (set_writeIndex 3 silent) [9; 9; 9; 9]) = Ok (true, m') /\
    readIndex (this m') = wrap64 (0 + 2) /\
    availableToRead m' = Ok (3 - 2, m') /\
    availableToWrite m' = Ok (4093 + 2, m') /\
    audioData (this m') = audioData silent.
Proof.
  apply (read_success_postcondition
           (mkMem (set_writeIndex 3 silent) [9; 9; 9; 9]) 2 3 4093).
  - split; vm_compute; reflexivity.
  - reflexivity.
  - reflexivity.
  - vm_compute. discriminate.
  - vm_compute. split; discriminate.
  - vm_compute. discriminate.
Defined.

(** X3. A chunk larger than the ring is never written: in every state a run
    reaches from a fresh buffer, even an empty one, [write] with
    [frameCount > kRingBufferFrames] returns [false] and changes nothing. *)
Theorem oversize_write_refused ops pad data evs b smp fc :
  forallb op_typed ops = true ->
  run ops (create pad data) = Ok (evs, b) ->
  kRingBufferFrames < fc ->
  write fc (mkMem b smp) = Ok (false, mkMem b smp).
Proof.
  intros Ht E Hfc.
  destruct (run_tracks ops _ _ _ 0 0 Ht (tracks_create pad data) E) as (R & Htr & _).
  pose proof (tracks_writable _ _ _ Htr) as Hw.
  destruct Htr as (_ & _ & H1 & H2).
  apply write_full. cbn [this]. lia.
Qed.

Lemma oversize_write_refused_witness :
  write 4097 (mkMem silent (zeros (Z.to_nat 8194)))
  = Ok (false, mkMem silent (zeros (Z.to_nat 8194))).
Proof.
  apply (oversize_write_refused [] [] (zeros (Z.to_nat 8192)) [] silent
           (zeros (Z.to_nat 8194)) 4097).
  - reflexivity.
  - reflexivity.
  - reflexivity.
Defined.

(** X4. Zero frames: whatever the fill level, [write] and [read] with
    [frameCount = 0] return [true] (a full buffer does not refuse, an empty
    one does not report underrun) and leave the object and the caller's array
    exactly as they were. *)
Theorem zero_frames_succeed m :
  0 <= writeIndex (this m) < 2 ^ 64 ->
  0 <= readIndex (this m) < 2 ^ 64 ->
  write 0 m = Ok (true, m) /\ read 0 m = Ok (true, m).
Proof.
  intros Hw Hr. destruct m as [b smp]. cbn [this] in *.
  pose proof (wrap64_range (kRingBufferFrames - wrap64 (writeIndex b - readIndex b))) as Hwr.
  pose proof (readable_range b) as Hrd.
  split.
  - unfold write. rewrite (bind_ok _ _ _ _ _ (availableToWrite_eq _)). cbn [this].
    destruct (Z.ltb_spec (writable b) 0) as [?|_]; [unfold writable in *; lia|].
    step_field. step_field. change (Z.to_nat 0) with 0%nat. cbn [for_loop].
    unfold bind, ret, put_writeIndex. cbn [rbind fst snd this samples].
    rewrite Z.add_0_r, wrap64_small by exact Hw. now destruct b.
  - unfold read. rewrite (bind_ok _ _ _ _ _ (availableToRead_eq _)). cbn [this].
    destruct (Z.ltb_spec (readable b) 0) as [?|_]; [lia|].
    step_field. step_field. change (Z.to_nat 0) with 0%nat. cbn [for_loop].
    unfold bind, ret, put_readIndex. cbn [rbind fst snd this samples].
    rewrite Z.add_0_r, wrap64_small by exact Hr. now destruct b.
Qed.

Lemma zero_frames_succeed_witness :
  write 0 (mkMem (set_writeIndex 4096 silent) []) = Ok (true, mkMem (set_writeIndex 4096 silent) []) /\
  read 0 (mkMem silent []) = Ok (true, mkMem silent []).
Proof.
  split.
  - apply (zero_frames_succeed (mkMem (set_writeIndex 4096 silent) []));
      vm_compute; split; discriminate || reflexivity.
  - apply (zero_frames_succeed (mkMem silent []));
      vm_compute; split; discriminate || reflexivity.
Defined.

(** X5. The queue behaviour does not depend on the absolute counter values:
    from any well-formed state whose unread frames are the queue [q], every
    sequence of calls returns what the queue returns. This includes counters
    about to pass [2 ^ 64], where [writeIndex] wraps to a small value while
    the slots go on without a break. *)
Theorem fifo_from_any_state ops b q :
  well_formed b -> counters_ok b -> represents b q ->
  forallb op_ok ops = true ->
  exists b',
    run ops b = Ok (fst (fifo_run ops q), b') /\
    well_formed b' /\ counters_ok b' /\ represents b' (snd (fifo_run ops q)).
Proof.
  intros Hwf Hc Hr Hok.
  destruct (run_refines ops b q (conj Hwf (conj Hc Hr)) Hok) as (b' & E & Hg).
  exists b'. split; [exact E | exact Hg].
Qed.

Lemma fifo_from_any_state_witness :
  exists b',
    run [Write [1; 1; 2; 2; 3; 3] 3; Read [9; 9; 9; 9; 9; 9] 3] (at_count (2 ^ 64 - 1))
    = Ok ([Wrote true; ReadBack true [1; 1; 2; 2; 3; 3]], b') /\
    well_formed b' /\ counters_ok b' /\ represents b' [].
Proof.
  apply (fifo_from_any_state
           [Write [1; 1; 2; 2; 3; 3] 3; Read [9; 9; 9; 9; 9; 9] 3]
           (at_count (2 ^ 64 - 1)) []).
  - apply at_count_well_formed.
  - unfold counters_ok. rewrite at_count_readable. vm_compute. discriminate.
  - split; [now rewrite at_count_readable|].
    intros k ch Hk. rewrite at_count_readable in Hk. lia.
  - reflexivity.
Defined.

(** Three frames written while [writeIndex] passes [2 ^ 64]: the counter
    ends at 2, the frames sit in slots 4095, 0 and 1 and come back intact. *)
Example counter_wrap_example :
  match run [Write [1; 1; 2; 2; 3; 3] 3; Read [9; 9; 9; 9; 9; 9] 3]
            (at_count (2 ^ 64 - 1)) with
  | Ok (evs, b) => evs = [ Wrote true; ReadBack true [1; 1; 2; 2; 3; 3] ]
                   /\ take 4 (audioData b) = [2; 2; 3; 3]
                   /\ drop (Z.to_nat 8190) (audioData b) = [1; 1]
                   /\ writeIndex b = 2 /\ readIndex b = 2
  | Fault _ => False
  end.
Proof. vm_compute. repeat split. Qed.

(** X6. What the calls never touch: [read], whether it succeeds or reports
    underrun, leaves every stored sample and the padding as they were, so the
    consumer cannot damage what the producer wrote; [write] leaves the
    caller's source array and the padding as they were. *)
Theorem calls_never_touch fc m :
  (forall ok m', read fc m = Ok (ok, m') ->
     audioData (this m') = audioData (this m) /\
     padding (this m') = padding (this m)) /\
  (forall ok m', write fc m = Ok (ok, m') ->
     samples m' = samples m /\
     padding (this m') = padding (this m)).
Proof.
  split; intros ok m' E.
  - apply read_inv in E. destruct E as (_ & _ & _ & _ & _ & Hp & Ha & _). now split.
  - apply write_inv in E. destruct E as (Hs & _ & _ & _ & _ & _ & Hp & _). now split.
Qed.

Lemma calls_never_touch_witness :
  (exists ok m', read 2 (mkMem (set_writeIndex 3 silent) [9; 9; 9; 9]) = Ok (ok, m') /\
     audioData (this m') = audioData silent) /\
  (exists ok m', write 2 (mkMem silent [1; 1; 2; 2]) = Ok (ok, m') /\
     samples m' = [1; 1; 2; 2]).
Proof.
  split.
  - destruct (read 2 (mkMem (set_writeIndex 3 silent) [9; 9; 9; 9])) as [[ok m']|f] eqn:E;
      [|vm_compute in E; discriminate].
    exists ok, m'. split; [reflexivity|].
    exact (proj1 (proj1 (calls_never_touch 2 (mkMem (set_writeIndex 3 silent) [9; 9; 9; 9]))
                   ok m' E)).
  - destruct (write 2 (mkMem silent [1; 1; 2; 2])) as [[ok m']|f] eqn:E;
      [|vm_compute in E; discriminate].
    exists ok, m'. split; [reflexivity|].
    exact (proj1 (proj2 (calls_never_touch 2 (mkMem silent [1; 1; 2; 2])) ok m' E)).
Defined.

Lemma store_outside name (arr : list float32) i v :
  Z.of_nat (length arr) <= i -> store name arr i v = Fault (OutOfRange name i).
Proof.
  intros H. unfold store.
  destruct (Z.ltb_spec i (Z.of_nat (length arr))) as [?|_]; [lia|].
  now rewrite andb_false_r.
Qed.

(** X7. The copy loop of [write] takes the channel count from the [channels]
    field in shared memory and does not compare it with [kChannels]: when the
    field is larger and the write position [s = writeIndex %
    kRingBufferFrames] has [s * channels] at or past the end of the array, a
    one-frame write that passes the capacity check stores outside
    [audioData]. *)
Theorem channels_field_is_trusted b nch v smp :
  length (audioData b) = Z.to_nat (kRingBufferFrames * kChannels) ->
  channels b = nch -> kChannels < nch < 2 ^ 32 ->
  1 <= writable b ->
  kRingBufferFrames * kChannels <= (writeIndex b mod kRingBufferFrames) * nch ->
  write 1 (mkMem b (v :: smp))
  = Fault (OutOfRange AudioData ((writeIndex b mod kRingBufferFrames) * nch)).
Proof.
  intros Hlen Hch Hn Hw Hs.
  pose proof (slot_range (writeIndex b)) as Hr.
  unfold kRingBufferFrames, kChannels in *.
  unfold write. rewrite (bind_ok _ _ _ _ _ (availableToWrite_eq _)). cbn [this].
  destruct (Z.ltb_spec (writable b) 1) as [?|_]; [lia|].
  step_field. step_field. rewrite Hch.
  change (Z.to_nat 1) with 1%nat. cbn [for_loop].
  replace (Z.to_nat nch) with (S (Z.to_nat (nch - 1))) by lia. cbn [for_loop].
  unfold bind at 1. unfold bind at 1. unfold bind at 1. unfold bind at 1.
  unfold bind at 1. unfold load_samples at 1. cbn [samples].
  assert (sampleIndex nch 0 0 = 0) as ->.
  { unfold sampleIndex. now rewrite Z.mul_0_l. }
  rewrite (load_ok Samples (v :: smp) 0 v ltac:(lia) eq_refl). cbn [rbind fst snd].
  assert (audioIndex nch (writeIndex b) 0 0 = (writeIndex b mod 4096) * nch) as ->.
  { assert (0 <= writeIndex b mod 4096 * nch < 2 ^ 64) as Hp.
    { change (2 ^ 64) with 18446744073709551616.
      change (2 ^ 32) with 4294967296 in Hn. nia. }
    unfold audioIndex. rewrite wrap64_slot, !Z.add_0_r. unfold kRingBufferFrames.
    now rewrite !(wrap64_small _ Hp). }
  unfold store_audioData at 1. cbn [this].
  rewrite store_outside by (rewrite Hlen; lia). reflexivity.
Qed.

Lemma channels_field_is_trusted_witness :
  write 1 (mkMem (with_channels 3 4095 silent) [1; 1; 1])
  = Fault (OutOfRange AudioData (4095 * 3)).
Proof.
  apply (channels_field_is_trusted (with_channels 3 4095 silent) 3 1 [1; 1]).
  - vm_compute. reflexivity.
  - reflexivity.
  - vm_compute. split; reflexivity.
  - vm_compute. discriminate.
  - vm_compute. discriminate.
Defined.

(** ** Driver.cpp: the reader over its lifetime *)

Lemma attempt_succeeds_spec os :
  attempt_succeeds os = true ->
  shm_open_answer os <> -1 /\ mmap_answer os <> MAP_FAILED.
Proof.
  unfold attempt_succeeds. rewrite andb_true_iff, negb_true_iff, Z.eqb_neq.
  intros [H1 H2]. split; [exact H1|]. destruct (mmap_answer os); congruence.
Qed.

Lemma new_reader os fds :
  os_sane os fds ->
  SharedMemoryReader_new os fds
  = if attempt_succeeds os
    then mkHost (mkReader (shm_open_answer os) mapped) ({[shm_open_answer os]} ∪ fds)
    else mkHost (mkReader (-1) nullptr) fds.
Proof.
  intros [Hnn Hfresh].
  unfold SharedMemoryReader_new, shm_open, mmap, close, attempt_succeeds.
  destruct (Z.eqb_spec (shm_open_answer os) (-1)) as [E|N]; cbn [negb andb].
  - now rewrite E.
  - destruct (mmap_answer os); [contradiction | | reflexivity].
    f_equal. destruct Hfresh as [?|Hfresh]; [contradiction|].
    apply set_eq. intros x.
    rewrite elem_of_difference, elem_of_union, elem_of_singleton.
    split; [tauto|]. intros Hx. split; [tauto|]. now intros ->.
Qed.

Lemma new_reader_invariant os fds :
  os_sane os fds -> reader_invariant fds (SharedMemoryReader_new os fds).
Proof.
  intros Hs. rewrite (new_reader os fds Hs).
  destruct (attempt_succeeds os) eqn:Ea.
  - right. apply attempt_succeeds_spec in Ea as [Hfd _].
    destruct Hs as [_ [?|Hfresh]]; [contradiction|]. repeat split; assumption.
  - left. split; reflexivity.
Qed.

Lemma tryReconnect_invariant os fds h :
  reader_invariant fds h -> os_sane os fds ->
  reader_invariant fds (snd (tryReconnect os h)).
Proof.
  intros [[Hd Hfds]|(Hm & H1 & H2 & H3)] Hs.
  - rewrite <- Hfds in Hs. destruct (attempt_succeeds os) eqn:Ea.
    + rewrite (tryReconnect_succeeds os h Hd Hs Ea). cbn [snd]. right.
      apply attempt_succeeds_spec in Ea as [Hfd _].
      destruct Hs as [_ [?|Hfresh]]; [contradiction|].
      rewrite Hfds in *. repeat split; assumption.
    + rewrite (tryReconnect_fails os h Hd Hs Ea). cbn [snd]. left. now split.
  - rewrite tryReconnect_connected by congruence. cbn [snd]. right. repeat split; assumption.
Qed.

Lemma reconnect_attempts_invariant fds answers : forall h,
  reader_invariant fds h -> Forall (fun a => os_sane a fds) answers ->
  reader_invariant fds (reconnect_attempts answers h).
Proof.
  induction answers as [|os rest IH]; intros h Hi Hall; [exact Hi|].
  inversion Hall as [|? ? Hs Hrest]; subst. cbn [reconnect_attempts].
  apply IH; [|exact Hrest]. now apply tryReconnect_invariant.
Qed.

(** X8. The constructor, for any answer of the operating system: when open
    and map both succeed the reader holds the mapping and exactly the new
    descriptor; otherwise it is disconnected ([fd_ = -1], null buffer) and
    the descriptor table is as before, the descriptor of a failed [mmap]
    having been closed again. *)
Theorem constructor_outcome os fds :
  os_sane os fds ->
  SharedMemoryReader_new os fds
  = if attempt_succeeds os
    then mkHost (mkReader (shm_open_answer os) mapped) ({[shm_open_answer os]} ∪ fds)
    else mkHost (mkReader (-1) nullptr) fds.
Proof. apply new_reader. Qed.

Lemma constructor_outcome_witness :
  SharedMemoryReader_new no_mapping {[3]} = mkHost (mkReader (-1) nullptr) {[3]} /\
  SharedMemoryReader_new segment_ready {[3]} = mkHost (mkReader 7 mapped) ({[7]} ∪ {[3]}).
Proof.
  split.
  - apply (constructor_outcome no_mapping {[3]}).
    split; [discriminate|]. right. cbn. rewrite elem_of_singleton. discriminate.
  - apply (constructor_outcome segment_ready {[3]}).
    split; [discriminate|]. right. cbn. rewrite elem_of_singleton. discriminate.
Defined.

(** X9. The reader's invariant over its lifetime: after the constructor and
    any number of [tryReconnect] calls, [buffer_] is never [MAP_FAILED], it
    is null exactly when [fd_ = -1], and the process holds, beyond the
    descriptors it had, the reader's own descriptor when connected and none
    when disconnected. *)
Theorem reader_lifetime_invariant os answers fds :
  os_sane os fds -> Forall (fun a => os_sane a fds) answers ->
  let h := reconnect_attempts answers (SharedMemoryReader_new os fds) in
  reader_invariant fds h /\
  buffer h <> MAP_FAILED /\
  (buffer h = nullptr <-> fd_ (shmReader_ h) = -1).
Proof.
  intros Hs Hall h.
  assert (reader_invariant fds h) as Hi
    by (apply reconnect_attempts_invariant; [now apply new_reader_invariant | exact Hall]).
  split; [exact Hi|].
  destruct Hi as [[Hd _]|(Hm & Hfd & _)].
  - unfold Disconnected in Hd. unfold buffer. rewrite Hd. cbn. split; [discriminate|tauto].
  - rewrite Hm. split; [discriminate|]. split; [discriminate | contradiction].
Qed.

Lemma reader_lifetime_invariant_witness :
  let h := reconnect_attempts [no_mapping; segment_ready; no_segment]
             (SharedMemoryReader_new no_segment ∅) in
  reader_invariant ∅ h /\
  buffer h <> MAP_FAILED /\
  (buffer h = nullptr <-> fd_ (shmReader_ h) = -1).
Proof.
  apply (reader_lifetime_invariant no_segment
           [no_mapping; segment_ready; no_segment] ∅).
  - split; [discriminate | now left].
  - constructor; [|constructor; [|constructor; [|constructor]]].
    + split; [discriminate | right; apply not_elem_of_empty].
    + split; [discriminate | right; apply not_elem_of_empty].
    + split; [discriminate | now left].
Defined.

(** X10. The destructor gives back what the reader took: after the
    constructor and any number of [tryReconnect] calls, the destructor calls
    [munmap] exactly when a buffer is mapped and leaves the descriptor table
    as it was before the reader existed. *)
Theorem destructor_releases os answers fds :
  os_sane os fds -> Forall (fun a => os_sane a fds) answers ->
  let h := reconnect_attempts answers (SharedMemoryReader_new os fds) in
  snd (SharedMemoryReader_delete h) = fds /\
  (fst (SharedMemoryReader_delete h) = true <-> buffer h = mapped).
Proof.
  intros Hs Hall h.
  assert (reader_invariant fds h) as Hi
    by (apply reconnect_attempts_invariant; [now apply new_reader_invariant | exact Hall]).
  unfold SharedMemoryReader_delete, buffer, close in *.
  destruct Hi as [[Hd Hfds]|(Hm & Hfd & Hfresh & Hfds)].
  - unfold Disconnected in Hd. rewrite Hd. cbn. split; [exact Hfds|].
    split; discriminate.
  - unfold buffer in Hm. rewrite Hm. cbn [fst snd].
    destruct (Z.eqb_spec (fd_ (shmReader_ h)) (-1)) as [?|_]; [contradiction|].
    split; [|tauto]. rewrite Hfds. apply set_eq. intros x.
    rewrite elem_of_difference, elem_of_union, elem_of_singleton.
    split; [tauto|]. intros Hx. split; [tauto|]. now intros ->.
Qed.

Lemma destructor_releases_witness :
  let h := reconnect_attempts [no_mapping; segment_ready]
             (SharedMemoryReader_new no_segment {[3]}) in
  snd (SharedMemoryReader_delete h) = {[3]} /\
  (fst (SharedMemoryReader_delete h) = true <-> buffer h = mapped).
Proof.
  apply (destructor_releases no_segment [no_mapping; segment_ready] {[3]}).
  - split; [discriminate | now left].
  - constructor; [|constructor; [|constructor]].
    + split; [discriminate|]. right. cbn. rewrite elem_of_singleton. discriminate.
    + split; [discriminate|]. right. cbn. rewrite elem_of_singleton. discriminate.
Defined.

(** ** Driver.cpp: the handler from one callback to the next *)

Lemma after_reconnect_mapped os h : buffer h = mapped -> after_reconnect os h = h.
Proof. unfold after_reconnect. now intros ->. Qed.

(** Every way the handler can return. *)
Lemma handler_inv os shm h bytes bc h' shm' out :
  OnReadClientInput os shm h bytes bc = Ok (h', shm', out) ->
  h' = after_reconnect os h /\
  writeIndex shm' = writeIndex shm /\ audioData shm' = audioData shm /\
  isActive shm' = isActive shm /\ sampleRate shm' = sampleRate shm /\
  channels shm' = channels shm /\ bufferFrames shm' = bufferFrames shm /\
  padding shm' = padding shm.
Proof.
  unfold OnReadClientInput. fold (after_reconnect os h).
  destruct (buffer (after_reconnect os h)); [| discriminate |].
  - destruct (memset_zero bytes bc); cbn [rbind]; [|discriminate].
    intros E. injection E as <- <- <-. repeat split.
  - destruct (isActive shm) eqn:Ea.
    + destruct (read _ (mkMem shm bytes)) as [[ok m']|f] eqn:Er; cbn [rbind fst snd];
        [|discriminate].
      apply read_inv in Er. cbn [this] in Er.
      destruct Er as (H1 & H2 & H3 & H4 & H5 & H6 & H7 & _).
      destruct ok.
      * intros E. injection E as <- <- <-. rewrite <- Ea. repeat split; assumption.
      * destruct (memset_zero (samples m') bc); cbn [rbind]; [|discriminate].
        intros E. injection E as <- <- <-. rewrite <- Ea. repeat split; assumption.
    + destruct (memset_zero bytes bc); cbn [rbind]; [|discriminate].
      intros E. injection E as <- <- <-. repeat split. exact Ea.
Qed.

Lemma callbacks_inv calls : forall shm h h' shm' outs,
  callbacks calls shm h = Ok (h', shm', outs) ->
  (buffer h = mapped -> h' = h) /\
  writeIndex shm' = writeIndex shm /\ audioData shm' = audioData shm /\
  isActive shm' = isActive shm /\ sampleRate shm' = sampleRate shm /\
  channels shm' = channels shm /\ bufferFrames shm' = bufferFrames shm /\
  padding shm' = padding shm /\ length outs = length calls.
Proof.
  induction calls as [|c rest IH]; intros shm h h' shm' outs E.
  - cbn in E. injection E as <- <- <-. repeat split.
  - cbn [callbacks] in E.
    destruct (OnReadClientInput _ shm h _ _) as [[[h1 shm1] out1]|f] eqn:E1;
      cbn [rbind fst snd] in E; [|discriminate].
    destruct (callbacks rest shm1 h1) as [[[h2 shm2] outs2]|f] eqn:E2;
      cbn [rbind fst snd] in E; [|discriminate].
    injection E as <- <- <-.
    apply handler_inv in E1. destruct E1 as (Hh & A1 & A2 & A3 & A4 & A5 & A6 & A7).
    apply IH in E2. destruct E2 as (Hh2 & B1 & B2 & B3 & B4 & B5 & B6 & B7 & B8).
    split; [|cbn [length]; repeat split; congruence].
    intros Hm. rewrite (after_reconnect_mapped _ _ Hm) in Hh. subst h1. now apply Hh2.
Qed.

(** X11. Once a buffer is mapped the handler makes no system call and never
    lets go of the mapping: its result does not depend on what the operating
    system would answer, and after any number of callbacks the reader and
    the descriptor table are exactly as they were, whether or not the
    producer is still active. *)
Theorem connected_handler_is_stable h :
  buffer h = mapped ->
  (forall os1 os2 shm bytes bc,
     OnReadClientInput os1 shm h bytes bc = OnReadClientInput os2 shm h bytes bc) /\
  (forall calls shm h' shm' outs,
     callbacks calls shm h = Ok (h', shm', outs) -> h' = h).
Proof.
  intros Hm. split.
  - intros os1 os2 shm bytes bc. unfold OnReadClientInput. now rewrite Hm.
  - intros calls shm h' shm' outs E. apply callbacks_inv in E. now apply E.
Qed.

Lemma connected_handler_is_stable_witness :
  OnReadClientInput no_segment silent connected_host [9; 9] 8
  = OnReadClientInput segment_ready silent connected_host [9; 9] 8 /\
  exists shm' outs,
    callbacks [mkInvocation no_segment [9; 9] 8; mkInvocation segment_ready [9; 9] 8]
      silent connected_host
    = Ok (connected_host, shm', outs).
Proof.
  pose proof (connected_handler_is_stable connected_host eq_refl) as [H1 H2].
  split; [apply H1|].
  destruct (callbacks [mkInvocation no_segment [9; 9] 8; mkInvocation segment_ready [9; 9] 8]
              silent connected_host) as [[[h' shm'] outs]|f] eqn:E;
    [|vm_compute in E; discriminate].
  exists shm', outs. now rewrite (H2 _ _ _ _ _ E).
Defined.

(** X12. The consumer side never writes what the producer owns: after any
    number of callbacks, in whatever connection state, the segment's
    [writeIndex], stored samples, [isActive] flag, metadata and padding are
    as they were, and the host got back one buffer per callback. *)
Theorem callbacks_leave_producer_fields calls shm h h' shm' outs :
  callbacks calls shm h = Ok (h', shm', outs) ->
  writeIndex shm' = writeIndex shm /\ audioData shm' = audioData shm /\
  isActive shm' = isActive shm /\ sampleRate shm' = sampleRate shm /\
  channels shm' = channels shm /\ bufferFrames shm' = bufferFrames shm /\
  padding shm' = padding shm /\ length outs = length calls.
Proof. intros E. apply callbacks_inv in E. apply E. Qed.

Lemma callbacks_leave_producer_fields_witness :
  exists h' shm' outs,
    callbacks [mkInvocation no_segment [9; 9; 9; 9] 16; mkInvocation no_segment [9; 9] 8]
      (set_isActive true (set_writeIndex 3 silent)) connected_host
    = Ok (h', shm', outs) /\
    writeIndex shm' = 3 /\ isActive shm' = true /\ length outs = 2%nat.
Proof.
  destruct (callbacks [mkInvocation no_segment [9; 9; 9; 9] 16; mkInvocation no_segment [9; 9] 8]
              (set_isActive true (set_writeIndex 3 silent)) connected_host)
    as [[[h' shm'] outs]|f] eqn:E; [|vm_compute in E; discriminate].
  exists h', shm', outs. split; [reflexivity|].
  destruct (callbacks_leave_producer_fields _ _ _ _ _ _ E)
    as (H1 & _ & H3 & _ & _ & _ & _ & H8).
  repeat split; assumption.
Defined.

(** The handler on a mapped buffer with an active producer and enough
    frames: it hands over the head of the queue. *)
Lemma handler_reads os shm h bytes bc q :
  buffer (after_reconnect os h) = mapped -> isActive shm = true ->
  well_formed shm -> represents shm q ->
  0 <= bc < 2 ^ 32 -> bc <= 4 * Z.of_nat (length bytes) ->
  bc / (4 * ChannelCount) <= readable shm ->
  OnReadClientInput os shm h bytes bc
  = Ok (after_reconnect os h,
        set_readIndex (wrap64 (readIndex shm + bc / (4 * ChannelCount))) shm,
        take (Z.to_nat (ChannelCount * (bc / (4 * ChannelCount)))) q
          ++ drop (Z.to_nat (ChannelCount * (bc / (4 * ChannelCount)))) bytes) /\
  represents (set_readIndex (wrap64 (readIndex shm + bc / (4 * ChannelCount))) shm)
    (drop (Z.to_nat (ChannelCount * (bc / (4 * ChannelCount)))) q).
Proof.
  intros Eb Ea Hwf Hrep Hbc Hlen Hcov.
  pose proof (numSamples_eq bc Hbc) as Hn.
  set (n := bc / (4 * ChannelCount)) in *.
  assert (0 <= n /\ ChannelCount * n <= bc / 4) as [Hn0 Hn1].
  { subst n. unfold ChannelCount. rewrite <- Z.div_div by lia.
    split; [apply Z.div_pos; [apply Z.div_pos|]; lia|].
    apply Z.mul_div_le. lia. }
  assert (bc / 4 <= Z.of_nat (length bytes)) as Hq
    by (apply Z.div_le_upper_bound; lia).
  assert (bc / 4 < 2 ^ 32) as Hq32 by (apply Z.div_lt_upper_bound; lia).
  unfold ChannelCount in *.
  destruct (read_ok shm bytes n Hwf ltac:(lia) ltac:(lia) ltac:(lia))
    as (out & E & Hl & Hr & Hu).
  rewrite (read_output shm q bytes out n Hrep ltac:(lia) Hl Hr Hu) in E.
  split.
  - unfold OnReadClientInput. fold (after_reconnect os h).
    rewrite Eb, Ea. unfold ChannelCount. fold n in Hn. unfold ChannelCount in Hn.
    rewrite Hn, E. reflexivity.
  - apply represents_read; [assumption | lia].
Qed.

(** X13. Data is never withheld: with a buffer mapped, the producer active
    and at least [n = bytesCount / (4 * ChannelCount)] frames unread, the
    handler puts exactly the [n] oldest unread frames at the start of the
    destination, in order, leaves the rest of the destination alone,
    advances [readIndex] by [n], and the frames that remain queued are the
    ones after those [n]. *)
Theorem handler_delivers os shm h bytes bc q :
  buffer (after_reconnect os h) = mapped -> isActive shm = true ->
  well_formed shm -> represents shm q ->
  0 <= bc < 2 ^ 32 -> bc <= 4 * Z.of_nat (length bytes) ->
  bc / (4 * ChannelCount) <= readable shm ->
  OnReadClientInput os shm h bytes bc
  = Ok (after_reconnect os h,
        set_readIndex (wrap64 (readIndex shm + bc / (4 * ChannelCount))) shm,
        take (Z.to_nat (ChannelCount * (bc / (4 * ChannelCount)))) q
          ++ drop (Z.to_nat (ChannelCount * (bc / (4 * ChannelCount)))) bytes) /\
  represents (set_readIndex (wrap64 (readIndex shm + bc / (4 * ChannelCount))) shm)
    (drop (Z.to_nat (ChannelCount * (bc / (4 * ChannelCount)))) q).
Proof. apply handler_reads. Qed.

Lemma three_frames_represents : represents three_frames [1; 1; 2; 2; 3; 3].
Proof.
  split; [reflexivity|]. change (readable three_frames) with 3.
  intros k ch Hk Hch.
  assert (k = 0 \/ k = 1 \/ k = 2) as [-> | [-> | ->]] by lia;
    (assert (ch = 0 \/ ch = 1) as [-> | ->] by lia); reflexivity.
Qed.

Lemma handler_delivers_witness :
  OnReadClientInput no_segment three_frames connected_host [9; 9; 9; 9; 9] 16
  = Ok (connected_host, set_readIndex 2 three_frames, [1; 1; 2; 2; 9]) /\
  represents (set_readIndex 2 three_frames) [3; 3].
Proof.
  apply (handler_delivers no_segment three_frames connected_host
           [9; 9; 9; 9; 9] 16 [1; 1; 2; 2; 3; 3]).
  - reflexivity.
  - reflexivity.
  - split; vm_compute; reflexivity.
  - apply three_frames_represents.
  - vm_compute. split; [discriminate | reflexivity].
  - vm_compute. discriminate.
  - vm_compute. discriminate.
Defined.

(** X14. No callback is lost to reconnecting: when the handler is
    disconnected and open and map succeed during a callback, that same
    callback already delivers the [n] oldest unread frames of an active
    producer, and the handler comes out holding the mapping and its
    descriptor. *)
Theorem reconnect_and_deliver os shm h bytes bc q :
  Disconnected h -> os_sane os (descriptors h) -> attempt_succeeds os = true ->
  isActive shm = true -> well_formed shm -> represents shm q ->
  0 <= bc < 2 ^ 32 -> bc <= 4 * Z.of_nat (length bytes) ->
  bc / (4 * ChannelCount) <= readable shm ->
  OnReadClientInput os shm h bytes bc
  = Ok (mkHost (mkReader (shm_open_answer os) mapped)
          ({[shm_open_answer os]} ∪ descriptors h),
        set_readIndex (wrap64 (readIndex shm + bc / (4 * ChannelCount))) shm,
        take (Z.to_nat (ChannelCount * (bc / (4 * ChannelCount)))) q
          ++ drop (Z.to_nat (ChannelCount * (bc / (4 * ChannelCount)))) bytes).
Proof.
  intros Hd Hs Hok Ea Hwf Hrep Hbc Hlen Hcov.
  assert (after_reconnect os h
          = mkHost (mkReader (shm_open_answer os) mapped)
              ({[shm_open_answer os]} ∪ descriptors h)) as Har.
  { unfold after_reconnect, buffer. unfold Disconnected in Hd. rewrite Hd at 1.
    cbn [buffer_]. now rewrite (tryReconnect_succeeds os h Hd Hs Hok). }
  destruct (handler_reads os shm h bytes bc q) as [E _]; try assumption.
  - now rewrite Har.
  - now rewrite <- Har.
Qed.

Lemma reconnect_and_deliver_witness :
  OnReadClientInput segment_ready three_frames (SharedMemoryReader_new no_segment ∅)
    [9; 9; 9; 9; 9] 16
  = Ok (mkHost (mkReader 7 mapped) ({[7]} ∪ ∅), set_readIndex 2 three_frames,
        [1; 1; 2; 2; 9]).
Proof.
  apply (reconnect_and_deliver segment_ready three_frames
           (SharedMemoryReader_new no_segment ∅) [9; 9; 9; 9; 9] 16 [1; 1; 2; 2; 3; 3]).
  - reflexivity.
  - split; [discriminate | right; apply not_elem_of_empty].
  - reflexivity.
  - reflexivity.
  - split; vm_compute; reflexivity.
  - apply three_frames_represents.
  - vm_compute. split; [discriminate | reflexivity].
  - vm_compute. discriminate.
  - vm_compute. discriminate.
Defined.

(** X15. Retrying costs nothing while the segment is absent: over any number
    of callbacks in which open or map fails, the handler stays disconnected,
    the descriptor table does not grow, the segment is not touched, and every
    callback hands back its destination zeroed over [bytesCount] bytes. *)
Theorem absent_segment_retries calls : forall shm h,
  Disconnected h ->
  Forall (fun c => os_sane (call_os c) (descriptors h) /\
                   attempt_succeeds (call_os c) = false /\
                   0 <= call_bytesCount c <= 4 * Z.of_nat (length (call_bytes c)))
    calls ->
  exists outs,
    callbacks calls shm h = Ok (h, shm, outs) /\
    Forall2 (fun c out =>
               length out = length (call_bytes c) /\
               take (Z.to_nat (call_bytesCount c / 4)) out
               = zeros (Z.to_nat (call_bytesCount c / 4)))
      calls outs.
Proof.
  induction calls as [|c rest IH]; intros shm h Hd Hall.
  - exists []. split; [reflexivity | constructor].
  - inversion Hall as [|? ? (Hs & Hf & Hbc) Hrest]; subst.
    assert (buffer h = nullptr) as Hb by (unfold buffer; now rewrite Hd).
    assert (after_reconnect (call_os c) h = h) as Har.
    { unfold after_reconnect. rewrite Hb.
      now rewrite (tryReconnect_fails (call_os c) h Hd Hs Hf). }
    destruct (handler_silent (call_os c) shm h (call_bytes c) (call_bytesCount c))
      as (out & E & Hl & Hz).
    { congruence. } { exact Hbc. } { left. now rewrite Har. }
    rewrite Har in E.
    destruct (IH shm h Hd Hrest) as (outs & E' & Hall').
    exists (out :: outs). split.
    + cbn [callbacks]. rewrite E. cbn [rbind fst snd]. rewrite E'. reflexivity.
    + constructor; [split; assumption | exact Hall'].
Qed.

Lemma absent_segment_retries_witness :
  exists outs,
    callbacks [mkInvocation no_segment [9; 9] 8; mkInvocation no_mapping [9; 9; 9] 8]
      three_frames (SharedMemoryReader_new no_segment ∅)
    = Ok (SharedMemoryReader_new no_segment ∅, three_frames, outs) /\
    Forall2 (fun c out =>
               length out = length (call_bytes c) /\
               take (Z.to_nat (call_bytesCount c / 4)) out
               = zeros (Z.to_nat (call_bytesCount c / 4)))
      [mkInvocation no_segment [9; 9] 8; mkInvocation no_mapping [9; 9; 9] 8] outs.
Proof.
  apply (absent_segment_retries
           [mkInvocation no_segment [9; 9] 8; mkInvocation no_mapping [9; 9; 9] 8]
           three_frames (SharedMemoryReader_new no_segment ∅)).
  - reflexivity.
  - constructor; [|constructor; [|constructor]].
    + split; [split; [discriminate | now left]|]. split; [reflexivity|].
      vm_compute. split; discriminate.
    + split; [split; [discriminate | right; apply not_elem_of_empty]|].
      split; [reflexivity|]. vm_compute. split; discriminate.
Defined.

(** ** Driver.cpp: the entry point *)

(** X16. The entry point keeps one driver for the life of the process: a
    call whose type UUID is not [kAudioServerPlugInTypeUUID] returns null and
    creates nothing; the first call with that UUID creates the driver, and
    with it the reader; every later such call returns that same driver, which
    is never created again or replaced. *)
Theorem entry_point_keeps_one_driver k fds calls : forall static,
  let r := entry_calls k fds calls static in
  (forall d, static = Some d -> snd r = Some d) /\
  (static = None ->
   snd r = match List.find (fun c => snd c =? k) calls with
           | Some c => Some (CreateDriver (fst c) fds)
           | None => None
           end) /\
  Forall2 (fun c ret => ret = if snd c =? k then snd r else None) calls (fst r).
Proof.
  induction calls as [|c rest IH]; intros static.
  - cbn. split; [intros d Hd; exact Hd|]. split; [intros Hn; exact Hn | constructor].
  - cbn [entry_calls List.find]. unfold MicNoiseGateDriverEntryPoint.
    destruct (snd c =? k) eqn:Eu; cbn [negb fst snd].
    + set (d := match static with Some d => d | None => CreateDriver (fst c) fds end).
      destruct (IH (Some d)) as (H1 & _ & H3). cbn zeta in *.
      specialize (H1 d eq_refl).
      split; [|split].
      * intros d0 Hs. subst d. rewrite Hs in *. exact H1.
      * intros Hs. subst d. rewrite Hs in *. exact H1.
      * constructor; [now rewrite Eu, H1 | exact H3].
    + destruct (IH static) as (H1 & H2 & H3). cbn zeta in *.
      split; [exact H1|]. split; [exact H2|].
      constructor; [now rewrite Eu | exact H3].
Qed.
